(** * Repository ingestion route ([POST /api/github]): a shallow embedding

    The development follows the route handler of the code-review application: the
    locator parser [parseGitHubUrl], the path classifier
    [shouldIncludeFile], the size-ascending budgeted selection, the batched
    content fetch and the response that the handler builds.

    Conventions of the model.
    - A JavaScript string is a Rocq [string] whose characters stand for
      UTF-16 code units below 256; [toLowerCase] and [trim] are exact on
      that domain.
    - A JavaScript number that the handler uses as a count, a size or a
      status is an integer, modelled in [Z].
    - The platform classes the handler calls ([URL], [Buffer]), the
      messages of the errors that [Response] throws and the hosting
      service are parameters of the model. *)

From Stdlib Require Import ZArith Ascii String List Lia.
From stdpp Require Import base list strings gmap pretty sorting.

Local Open Scope Z_scope.

(** ** JavaScript string primitives used by the handler *)

Module JS.

Definition code (c : ascii) : Z := Z.of_N (N_of_ascii c).

(** White space of [String.prototype.trim] among code units below 256:
    TAB, LF, VT, FF, CR, SP and NBSP. *)
Definition isWhiteSpace (c : ascii) : bool :=
  let n := code c in
  ((9 <=? n) && (n <=? 13)) || (n =? 32) || (n =? 160).

Fixpoint trimStart (s : string) : string :=
  match s with
  | String c s' => if isWhiteSpace c then trimStart s' else s
  | EmptyString => EmptyString
  end.

Fixpoint trimEnd (s : string) : string :=
  match s with
  | String c s' =>
      match trimEnd s' with
      | EmptyString => if isWhiteSpace c then EmptyString else String c EmptyString
      | r => String c r
      end
  | EmptyString => EmptyString
  end.

Definition trim (s : string) : string := trimEnd (trimStart s).

(** [s.replace(/suffix$/, '')] for a literal, non-empty [suffix]: the
    pattern can only match at the very end of [s]. *)
Fixpoint stripSuffix (suffix s : string) : string :=
  if String.eqb s suffix then EmptyString
  else match s with
       | String c s' => String c (stripSuffix suffix s')
       | EmptyString => EmptyString
       end.

(** [s.split(sep)] for a one-character separator. *)
Fixpoint split (sep : ascii) (s : string) : list string :=
  match s with
  | EmptyString => [EmptyString]
  | String c s' =>
      if Ascii.eqb c sep then EmptyString :: split sep s'
      else match split sep s' with
           | w :: ws => String c w :: ws
           | [] => [String c EmptyString]
           end
  end.

(** [s.includes(c)] for a one-character needle. *)
Fixpoint includes (c : ascii) (s : string) : bool :=
  match s with
  | EmptyString => false
  | String d s' => Ascii.eqb d c || includes c s'
  end.

Definition lowerUnit (c : ascii) : ascii :=
  let n := code c in
  if ((65 <=? n) && (n <=? 90))
     || ((192 <=? n) && (n <=? 222) && negb (n =? 215))
  then ascii_of_N (Z.to_N (n + 32)) else c.

Fixpoint toLowerCase (s : string) : string :=
  match s with
  | EmptyString => EmptyString
  | String c s' => String (lowerUnit c) (toLowerCase s')
  end.

(** [Boolean(s)] for a string. *)
Definition truthy (s : string) : bool := negb (String.eqb s EmptyString).

(** [a || b] on an optional number: [undefined], [null] and [0] are falsy. *)
Definition numOr (a : option Z) (b : Z) : Z :=
  match a with
  | Some n => if n =? 0 then b else n
  | None => b
  end.

(** [a || b] on optional strings: [undefined] and [''] are falsy. *)
Definition strOr (a b : option string) : option string :=
  match a with
  | Some s => if truthy s then Some s else b
  | None => b
  end.

(** [a || b] where [b] is a string. *)
Definition strOrElse (a : option string) (b : string) : string :=
  match a with
  | Some s => if truthy s then s else b
  | None => b
  end.

(** [arr.slice(0, -1)]. *)
Definition init {A} (l : list A) : list A := take (length l - 1)%nat l.

(** The longest prefix of [s] whose code units satisfy [p], and the rest:
    how a greedy [[class]+] consumes input. *)
Fixpoint span (p : ascii -> bool) (s : string) : string * string :=
  match s with
  | String c s' =>
      if p c then let '(a, b) := span p s' in (String c a, b)
      else (EmptyString, s)
  | EmptyString => (EmptyString, EmptyString)
  end.

(** Every code unit of [s] satisfies [p]. *)
Fixpoint every (p : ascii -> bool) (s : string) : bool :=
  match s with
  | EmptyString => true
  | String c s' => p c && every p s'
  end.

End JS.

(** ** Constants of the route *)

Definition GITHUB_API : string := "https://api.github.com".
Definition MAX_FILE_SIZE : Z := 100000.
Definition MAX_TOTAL_SIZE : Z := 500000.
Definition MAX_FILES : Z := 50.
Definition BATCH_SIZE : nat := 10.

Definition CODE_EXTENSIONS : gset string :=
  list_to_set
    [ ".js"; ".jsx"; ".ts"; ".tsx"; ".mjs"; ".cjs";
      ".py"; ".pyw";
      ".java"; ".kt"; ".kts"; ".scala";
      ".go";
      ".rs";
      ".c"; ".cpp"; ".cc"; ".cxx"; ".h"; ".hpp";
      ".cs";
      ".rb";
      ".php";
      ".swift";
      ".dart";
      ".vue"; ".svelte";
      ".sol";
      ".r"; ".R";
      ".lua";
      ".sh"; ".bash"; ".zsh";
      ".sql";
      ".graphql"; ".gql";
      ".yml"; ".yaml";
      ".json";
      ".xml";
      ".toml";
      ".cfg"; ".ini"; ".conf";
      ".md"; ".mdx";
      ".html"; ".css"; ".scss"; ".sass"; ".less";
      ".dockerfile";
      ".tf";
      ".prisma";
      ".proto" ].

Definition SKIP_DIRS : gset string :=
  list_to_set
    [ "node_modules"; ".git"; "dist"; "build"; "out"; ".next";
      "__pycache__"; ".cache"; "vendor"; "target"; "bin"; "obj";
      ".idea"; ".vscode"; "coverage"; ".nyc_output"; ".tox";
      "venv"; ".venv"; "env"; ".env"; "eggs"; ".eggs" ].

Definition SKIP_FILES : gset string :=
  list_to_set
    [ "package-lock.json"; "yarn.lock"; "pnpm-lock.yaml";
      "composer.lock"; "Gemfile.lock"; "Cargo.lock";
      "go.sum"; "poetry.lock"; "Pipfile.lock" ].

Definition has (s : gset string) (x : string) : bool := bool_decide (x ∈ s).

(** ** The path classifier *)

(** [fileName.includes('.') ? '.' + fileName.split('.').pop()?.toLowerCase() : ''] *)
Definition extensionOf (fileName : string) : string :=
  if JS.includes "." fileName
  then "." +:+ JS.toLowerCase (List.last (JS.split "." fileName) "")
  else "".

Definition shouldIncludeFile (path : string) : bool :=
  let parts := JS.split "/" path in
  if existsb (has SKIP_DIRS) (JS.init parts) then false
  else
    let fileName := List.last parts "" in
    if has SKIP_FILES fileName then false
    else
      let ext := extensionOf fileName in
      if negb (JS.truthy ext) then false
      else if String.eqb fileName "Dockerfile" || String.eqb fileName "Makefile"
           then true
           else has CODE_EXTENSIONS ext.

(** [langMap[ext] || 'Unknown'] with [ext = '.' + path.split('.').pop()?.toLowerCase()]. *)
Definition langMap : gmap string string :=
  list_to_map
    [ (".js", "JavaScript"); (".jsx", "JavaScript"); (".mjs", "JavaScript"); (".cjs", "JavaScript");
      (".ts", "TypeScript"); (".tsx", "TypeScript");
      (".py", "Python"); (".pyw", "Python");
      (".java", "Java"); (".kt", "Kotlin"); (".kts", "Kotlin"); (".scala", "Scala");
      (".go", "Go");
      (".rs", "Rust");
      (".c", "C"); (".h", "C"); (".cpp", "C++"); (".cc", "C++"); (".cxx", "C++"); (".hpp", "C++");
      (".cs", "C#");
      (".rb", "Ruby");
      (".php", "PHP");
      (".swift", "Swift");
      (".dart", "Dart");
      (".vue", "Vue"); (".svelte", "Svelte");
      (".sol", "Solidity");
      (".r", "R"); (".R", "R");
      (".lua", "Lua");
      (".sh", "Shell"); (".bash", "Shell"); (".zsh", "Shell");
      (".sql", "SQL");
      (".html", "HTML"); (".css", "CSS"); (".scss", "SCSS"); (".sass", "Sass"); (".less", "Less");
      (".json", "JSON"); (".yml", "YAML"); (".yaml", "YAML"); (".toml", "TOML");
      (".md", "Markdown"); (".mdx", "MDX");
      (".graphql", "GraphQL"); (".gql", "GraphQL");
      (".proto", "Protocol Buffers");
      (".prisma", "Prisma");
      (".tf", "Terraform");
      (".xml", "XML") ].

Definition getLanguageFromPath (path : string) : string :=
  let ext := "." +:+ JS.toLowerCase (List.last (JS.split "." path) "") in
  match langMap !! ext with
  | Some lang => if JS.truthy lang then lang else "Unknown"
  | None => "Unknown"
  end.

(** ** The locator parser *)

(** The two accessors of the platform's [URL] class that the parser reads. *)
Record URL := { hostname : string; pathname : string }.

Record RepoRef := { owner : string; repo : string; branch : option string }.

(** The character class [[a-zA-Z0-9_.-]]. *)
Definition nameUnit (c : ascii) : bool :=
  let n := JS.code c in
  ((97 <=? n) && (n <=? 122)) || ((65 <=? n) && (n <=? 90))
  || ((48 <=? n) && (n <=? 57)) || (n =? 95) || (n =? 46) || (n =? 45).

(** [/^[a-zA-Z0-9_.-]+\/[a-zA-Z0-9_.-]+$/.test(cleaned)].  The class does
    not contain the slash, so the greedy reading of each [+] is the only
    one that can succeed. *)
Definition shortFormat (cleaned : string) : bool :=
  let '(o, rest) := JS.span nameUnit cleaned in
  JS.truthy o &&
  match rest with
  | String "/" r =>
      let '(n, rest') := JS.span nameUnit r in
      JS.truthy n && String.eqb rest' ""
  | _ => false
  end.

(** [url.trim().replace(/\.git$/, '').replace(/\/$/, '')] *)
Definition cleanUrl (url : string) : string :=
  JS.stripSuffix "/" (JS.stripSuffix ".git" (JS.trim url)).

Section Parser.

(** [new URL(s)]: [None] when the constructor throws. *)
Variable URL_new : string -> option URL.

Definition parseGitHubUrl (url : string) : option RepoRef :=
  let cleaned := cleanUrl url in
  if shortFormat cleaned then
    (* [const [owner, repo] = cleaned.split('/')]: the test leaves exactly
       two parts, see [shortFormat_two_parts] *)
    match JS.split "/" cleaned with
    | owner :: repo :: _ => Some {| owner := owner; repo := repo; branch := None |}
    | _ => None
    end
  else
    match URL_new cleaned with
    | None => None
    | Some urlObj =>
        if negb (String.eqb (hostname urlObj) "github.com") then None
        else
          let parts := List.filter JS.truthy (JS.split "/" (pathname urlObj)) in
          match parts with
          | owner :: repo :: rest =>
              let branch :=
                match rest with
                | t :: b :: _ =>
                    if String.eqb t "tree" && JS.truthy b then Some b else None
                | _ => None
                end in
              Some {| owner := owner; repo := repo; branch := branch |}
          | _ => None
          end
    end.

End Parser.

(** A reference instance of the [URL] parameter for plain locators
    [http://host/path] and [https://host/path] (no user info, port, query,
    fragment or dot segment): the host is lower-cased and an empty path
    reads as [/].  A string that carries neither scheme is rejected, as the
    platform rejects a string without a scheme. *)
Fixpoint dropPrefix (prefix s : string) : option string :=
  match prefix, s with
  | EmptyString, _ => Some s
  | String a p, String b s' => if Ascii.eqb a b then dropPrefix p s' else None
  | String _ _, EmptyString => None
  end.

Definition URL_plain (s : string) : option URL :=
  let afterScheme :=
    match dropPrefix "https://" s with
    | Some r => Some r
    | None => dropPrefix "http://" s
    end in
  match afterScheme with
  | None => None
  | Some r =>
      let '(host, path) := JS.span (fun c => negb (Ascii.eqb c "/")) r in
      if JS.truthy host
      then Some {| hostname := JS.toLowerCase host;
                   pathname := if JS.truthy path then path else "/" |}
      else None
  end.

(** A reference instance of the decoder parameter
    [Buffer.from(content, 'base64').toString('utf-8')]: the digits of both
    alphabets are read, any other character is skipped and the padding sign
    ends the input.  Each byte is read as the code unit of the same value,
    which is what the UTF-8 reading gives on ASCII payloads. *)
Definition sextet (c : ascii) : option Z :=
  let n := JS.code c in
  if (65 <=? n) && (n <=? 90) then Some (n - 65)
  else if (97 <=? n) && (n <=? 122) then Some (n - 71)
  else if (48 <=? n) && (n <=? 57) then Some (n + 4)
  else if (n =? 43) || (n =? 45) then Some 62
  else if (n =? 47) || (n =? 95) then Some 63
  else None.

Fixpoint sextets (s : string) : list Z :=
  match s with
  | EmptyString => []
  | String c s' =>
      if Ascii.eqb c "=" then []
      else match sextet c with
           | Some v => v :: sextets s'
           | None => sextets s'
           end
  end.

Definition octet (n : Z) : ascii := ascii_of_N (Z.to_N (n mod 256)).

Fixpoint octets (l : list Z) : string :=
  match l with
  | a :: b :: c :: d :: rest =>
      String (octet (a * 4 + b / 16))
        (String (octet (b * 16 + c / 4))
           (String (octet (c * 64 + d)) (octets rest)))
  | [a; b; c] =>
      String (octet (a * 4 + b / 16)) (String (octet (b * 16 + c / 4)) EmptyString)
  | [a; b] => String (octet (a * 4 + b / 16)) EmptyString
  | _ => EmptyString
  end.

Definition base64_plain (content : string) : string := octets (sextets content).

(** ** Tree entries and the budgeted selection *)

Record TreeItem := { path : string; type : string; size : option Z }.

(** [file.size || 0] *)
Definition sizeOf (file : TreeItem) : Z := JS.numOr (size file) 0.

(** The comparator [(a, b) => (a.size || 0) - (b.size || 0)]. *)
Definition bySize (a b : TreeItem) : Z := sizeOf a - sizeOf b.

(** [Array.prototype.sort] is stable: the result is the one of a stable
    insertion sort under the comparator. *)
Section ArraySort.
Context {A : Type} (cmp : A -> A -> Z).

Fixpoint sortInsert (x : A) (l : list A) : list A :=
  match l with
  | [] => [x]
  | y :: l' => if cmp x y <=? 0 then x :: l else y :: sortInsert x l'
  end.

Fixpoint Array_sort (l : list A) : list A :=
  match l with
  | [] => []
  | x :: l' => sortInsert x (Array_sort l')
  end.
End ArraySort.

(** The three limits of the collecting walk; the route runs it at
    [routeBudget]. *)
Record SelectionBudget :=
  { maxFiles : Z; maxFilePairSize : Z; maxTotalSize : Z }.

Definition routeBudget : SelectionBudget :=
  {| maxFiles := MAX_FILES; maxFilePairSize := MAX_FILE_SIZE;
     maxTotalSize := MAX_TOTAL_SIZE |}.

(** [(treeData.tree || []).filter(item => item.type === 'blob' && shouldIncludeFile(item.path))] *)
Definition eligible (tree : list TreeItem) : list TreeItem :=
  List.filter (fun item => String.eqb (type item) "blob" && shouldIncludeFile (path item)) tree.

(** The [for (const file of allFiles)] loop, from a state
    [(filesToFetch, totalSize)]. *)
Fixpoint collect (b : SelectionBudget) (allFiles filesToFetch : list TreeItem)
    (totalSize : Z) : list TreeItem * Z :=
  match allFiles with
  | [] => (filesToFetch, totalSize)
  | file :: rest =>
      if Z.of_nat (length filesToFetch) >=? maxFiles b
      then (filesToFetch, totalSize)
      else if sizeOf file >? maxFilePairSize b
      then collect b rest filesToFetch totalSize
      else if totalSize + sizeOf file >? maxTotalSize b
      then (filesToFetch, totalSize)
      else collect b rest (filesToFetch ++ [file]) (totalSize + sizeOf file)
  end.

(** Sorting followed by the walk. *)
Definition selectFiles (b : SelectionBudget) (allFiles : list TreeItem) : list TreeItem :=
  fst (collect b (Array_sort bySize allFiles) [] 0).

Definition totalOf (files : list TreeItem) : Z :=
  foldr (fun f acc => sizeOf f + acc) 0 files.

(** ** The hosting service and the platform's promises *)

(** How an awaited call settles; every call is taken to settle. *)
Inductive Outcome (A : Type) : Type :=
| Returns (a : A)
| Throws (message : string).
Arguments Returns {A} a.
Arguments Throws {A} message.

(** A [fetch] response: [json] is what [res.json()] settles to. *)
Record HttpResponse (A : Type) : Type :=
  { status : Z; statusText : string; json : Outcome A }.
Arguments status {A} _.
Arguments statusText {A} _.
Arguments json {A} _.

(** [res.ok] *)
Definition ok {A} (res : HttpResponse A) : bool :=
  (200 <=? status res) && (status res <=? 299).

(** The documents of the three endpoints, with the fields the route reads. *)
Record RepoData := { default_branch : option string }.
Record TreeData := { tree : option (list TreeItem) }.
Record ContentData := { encoding : option string; content : option string }.

(** The hosting service, one view per call site of [fetch], each keyed by
    the requested address. *)
Record HostingService :=
  { fetchRepo : string -> Outcome (HttpResponse RepoData);
    fetchTree : string -> Outcome (HttpResponse TreeData);
    fetchContent : string -> Outcome (HttpResponse ContentData) }.

(** [Promise.all]: every promise writes what it settled to into the slot of
    its own index, in the order [completion] in which the promises settle;
    the array is delivered once every slot is written. *)
Fixpoint settle {A} (completion : list nat) (settled : list A)
    (slots : list (option A)) : list (option A) :=
  match completion with
  | [] => slots
  | i :: later =>
      settle later settled
        match settled !! i with
        | Some v => <[i := Some v]> slots
        | None => slots
        end
  end.

Definition Promise_all {A} (completion : list nat) (settled : list A) : option (list A) :=
  mapM id (settle completion settled (replicate (length settled) None)).

(** ** The handler's effects: a log of the addresses requested, exceptions,
    and a handler that is still waiting *)

Inductive Step (A : Type) : Type :=
| Done (a : A)
| Raise (message : string)
| Pending.
Arguments Done {A} a.
Arguments Raise {A} message.
Arguments Pending {A}.

Definition Async (A : Type) : Type := list string -> Step A * list string.

Definition ret {A} (a : A) : Async A := fun log => (Done a, log).

Definition bind {A B} (m : Async A) (k : A -> Async B) : Async B :=
  fun log =>
    match m log with
    | (Done a, log') => k a log'
    | (Raise e, log') => (Raise e, log')
    | (Pending, log') => (Pending, log')
    end.

Notation "x <- m ;; k" := (bind m (fun x => k))
  (at level 100, m at next level, right associativity).

(** [await] of a call that has no network effect, such as [res.json()]. *)
Definition await {A} (o : Outcome A) : Async A :=
  fun log =>
    match o with
    | Returns a => (Done a, log)
    | Throws e => (Raise e, log)
    end.

(** [await fetch(url, ...)]: the address is logged, then the call settles. *)
Definition fetch {A} (service : string -> Outcome A) (url : string) : Async A :=
  fun log => await (service url) (log ++ [url]).

(** [await Promise.all(promises)] where starting the promises requests
    [urls]. *)
Definition awaitAll {A} (urls : list string) (completion : list nat)
    (settled : list A) : Async (list A) :=
  fun log =>
    match Promise_all completion settled with
    | Some results => (Done results, log ++ urls)
    | None => (Pending, log ++ urls)
    end.

(** [try { m } catch (error) { handler(error.message) }] *)
Definition tryCatch {A} (m : Async A) (handler : string -> Async A) : Async A :=
  fun log =>
    match m log with
    | (Raise e, log') => handler e log'
    | r => r
    end.

(** ** The response *)

Record FileRecord :=
  { file_path : string; file_content : string; file_size : Z;
    file_language : string }.

Inductive ResponseBody : Type :=
| Failure (error : string)
| Success (owner repo branch : string) (files : list FileRecord)
    (totalFiles fetchedFiles truncatedFiles : Z)
    (tree : list (string * option Z)).

Record NextResponse := { responseBody : ResponseBody; responseStatus : Z }.

(** The statuses of a response that has no body. *)
Definition nullBodyStatus : list Z := [101; 204; 205; 304].

(** Whether the platform's [Response] takes a status for a response with
    a body: its constructor throws a [RangeError] for a status outside
    200..599 and a [TypeError] for a null-body status. *)
Definition Response_accepts (status : Z) : bool :=
  (200 <=? status) && (status <=? 599)
  && negb (existsb (Z.eqb status) nullBodyStatus).

(** [NextResponse.json(body, { status })]: the status defaults to 200; the
    call returns the response, or throws when [Response] refuses the
    status.  [Response_error] is the message of the error thrown for a
    refused status. *)
Definition NextResponse_json (Response_error : Z -> string)
    (body : ResponseBody) (status : option Z) : Outcome NextResponse :=
  let status := default 200 status in
  if Response_accepts status
  then Returns {| responseBody := body; responseStatus := status |}
  else Throws (Response_error status).

Definition filesOf (res : NextResponse) : list FileRecord :=
  match responseBody res with
  | Success _ _ _ files _ _ _ _ => files
  | Failure _ => []
  end.

Definition succeeded (res : NextResponse) : bool :=
  match responseBody res with
  | Success _ _ _ _ _ _ _ _ => true
  | Failure _ => false
  end.

(** The request document: [{ repoUrl, branch }]. *)
Record RequestBody := { repoUrl : option string; requestedBranch : option string }.

(** ** The route handler *)

Section Route.

Variable URL_new : string -> option URL.
(** [Buffer.from(content, 'base64').toString('utf-8')] *)
Variable decodeBase64 : string -> string.
(** The message of the error that [Response] throws for a status it
    refuses. *)
Variable Response_error : Z -> string.
Variable github : HostingService.
(** The order in which the fetches of the batch that starts at a given
    index settle. *)
Variable completion : nat -> list nat.

Definition repoAddress (owner repo : string) : string :=
  GITHUB_API +:+ "/repos/" +:+ owner +:+ "/" +:+ repo.

Definition treeAddress (owner repo targetBranch : string) : string :=
  GITHUB_API +:+ "/repos/" +:+ owner +:+ "/" +:+ repo +:+ "/git/trees/"
    +:+ targetBranch +:+ "?recursive=1".

Definition contentAddress (owner repo targetBranch : string) (file : TreeItem) : string :=
  GITHUB_API +:+ "/repos/" +:+ owner +:+ "/" +:+ repo +:+ "/contents/"
    +:+ path file +:+ "?ref=" +:+ targetBranch.

(** What the body of the arrow function does with the document of a
    successful response. *)
Definition normalize (file : TreeItem) (contentData : ContentData) : option FileRecord :=
  match encoding contentData, content contentData with
  | Some enc, Some c =>
      if String.eqb enc "base64" && JS.truthy c then
        let decoded := decodeBase64 c in
        if JS.includes "000" decoded then None
        else Some {| file_path := path file;
                     file_content := decoded;
                     file_size := JS.numOr (size file) (Z.of_nat (String.length decoded));
                     file_language := getLanguageFromPath (path file) |}
      else None
  | _, _ => None
  end.

(** The arrow function [async (file) => { try { ... } catch { return null } }]:
    what its promise settles to. *)
Definition fetchFile (owner repo targetBranch : string) (file : TreeItem) : option FileRecord :=
  match fetchContent github (contentAddress owner repo targetBranch file) with
  | Throws _ => None
  | Returns contentRes =>
      if negb (ok contentRes) then None
      else match json contentRes with
           | Throws _ => None
           | Returns contentData => normalize file contentData
           end
  end.

(** The loop [for (let i = 0; i < filesToFetch.length; i += BATCH_SIZE)],
    from index [i] with [results] collected so far; [fuel] bounds the
    number of tests of the loop condition. *)
Fixpoint fetchBatches (fuel : nat) (owner repo targetBranch : string)
    (filesToFetch : list TreeItem) (i : nat) (results : list FileRecord)
    : Async (list FileRecord) :=
  match fuel with
  | O => fun log => (Pending, log)
  | S fuel' =>
      if (i <? length filesToFetch)%nat then
        let batch := take BATCH_SIZE (drop i filesToFetch) in
        batchResults <-
          awaitAll (map (contentAddress owner repo targetBranch) batch)
                   (completion i)
                   (map (fetchFile owner repo targetBranch) batch) ;;
        fetchBatches fuel' owner repo targetBranch filesToFetch
          (i + BATCH_SIZE)%nat (results ++ omap id batchResults)
      else ret results
  end.

(** [return NextResponse.json({ success: false, error }, { status })] *)
Definition failure (error : string) (status : Z) : Async NextResponse :=
  await (NextResponse_json Response_error (Failure error) (Some status)).

(** Step 1 of the handler, [let targetBranch = branch; if (!targetBranch) { ... }]:
    the branch to read, or the response that the handler returns
    early.  [JS.strOr branch None] is [branch] when it is truthy. *)
Definition resolveBranch (owner repo : string) (branch : option string)
    : Async (string + NextResponse) :=
  match JS.strOr branch None with
  | Some targetBranch => ret (inl targetBranch)
  | None =>
      repoRes <- fetch (fetchRepo github) (repoAddress owner repo) ;;
      if negb (ok repoRes) then
        response <-
          (if status repoRes =? 404 then
             failure ("Repository " +:+ owner +:+ "/" +:+ repo
                      +:+ " not found. Make sure it exists and is public.")
                     404
           else
             failure ("GitHub API error: " +:+ pretty (status repoRes)
                      +:+ " " +:+ statusText repoRes)
                     (status repoRes)) ;;
        ret (inr response)
      else
        repoData <- await (json repoRes) ;;
        ret (inl (JS.strOrElse (default_branch repoData) "main"))
  end.

(** Steps 2 and 3 of the handler: the recursive tree, the selection, the
    batched contents and the response. *)
Definition fetchTreeAndContents (owner repo targetBranch : string)
    : Async NextResponse :=
  treeRes <- fetch (fetchTree github) (treeAddress owner repo targetBranch) ;;
  if negb (ok treeRes) then
    failure ("Failed to fetch repo tree: " +:+ pretty (status treeRes)
             +:+ " " +:+ statusText treeRes)
            (status treeRes)
  else
    treeData <- await (json treeRes) ;;
    let allFiles := Array_sort bySize (eligible (default [] (tree treeData))) in
    let filesToFetch := fst (collect routeBudget allFiles [] 0) in
    results <-
      fetchBatches (S (length filesToFetch)) owner repo targetBranch
        filesToFetch 0%nat [] ;;
    await (NextResponse_json Response_error
      (Success owner repo targetBranch results
         (Z.of_nat (length allFiles))
         (Z.of_nat (length results))
         (Z.of_nat (length allFiles) - Z.of_nat (length results))
         (map (fun f => (path f, size f)) allFiles))
      None).

Definition POST (request : Outcome RequestBody) : Async NextResponse :=
  tryCatch
    (body <- await request ;;
     match repoUrl body with
     | None => failure "repoUrl is required" 400
     | Some url =>
       if negb (JS.truthy url) then failure "repoUrl is required" 400
       else
       match parseGitHubUrl URL_new url with
       | None =>
           failure "Invalid GitHub URL. Use format: https://github.com/owner/repo or owner/repo" 400
       | Some parsed =>
         let owner := owner parsed in
         let repo := repo parsed in
         let branch := JS.strOr (requestedBranch body) (branch parsed) in
         resolved <- resolveBranch owner repo branch ;;
         match resolved with
         | inr response => ret response
         | inl targetBranch => fetchTreeAndContents owner repo targetBranch
         end
       end
     end)
    (fun message => failure message 500).

End Route.

(** ** Vocabulary of the statements *)

(** A non-empty run of the short format's character class. *)
Definition validName (s : string) : bool := JS.truthy s && JS.every nameUnit s.

Definition notSlash (c : ascii) : bool := negb (Ascii.eqb c "/").

(** A non-empty path segment. *)
Definition segment (s : string) : bool := JS.truthy s && JS.every notSlash s.

(** An entry that the walk does not skip as oversized. *)
Definition fits (b : SelectionBudget) (file : TreeItem) : bool :=
  sizeOf file <=? maxFilePairSize b.

(** The tree of the selection scenario and its budget. *)
Definition a_py : TreeItem := {| path := "a.py"; type := "blob"; size := Some 50 |}.
Definition c_js : TreeItem :=
  {| path := "b/node_modules/c.js"; type := "blob"; size := Some 10 |}.
Definition d_md : TreeItem := {| path := "d.md"; type := "blob"; size := Some 5000 |}.
Definition smallBudget : SelectionBudget :=
  {| maxFiles := MAX_FILES; maxFilePairSize := MAX_FILE_SIZE; maxTotalSize := 100 |}.

(** Every promise of every batch settles, in some order. *)
Definition fair (completion : nat -> list nat) (filesToFetch : list TreeItem) : Prop :=
  forall i, completion i ≡ₚ seq 0 (length (take BATCH_SIZE (drop i filesToFetch))).

(** The promises of each batch settling first to last, and last to first. *)
Definition inOrder (filesToFetch : list TreeItem) (i : nat) : list nat :=
  seq 0 (length (take BATCH_SIZE (drop i filesToFetch))).

Definition lastFirst (filesToFetch : list TreeItem) (i : nat) : list nat :=
  rev (inOrder filesToFetch i).

(** A reference instance of the messages of [Response]'s errors, for the
    scenarios. *)
Definition Response_error_plain (status : Z) : string :=
  "Response: invalid status " +:+ pretty status.

(** The failure response with a message and a status. *)
Definition rejected (error : string) (status : Z) : NextResponse :=
  {| responseBody := Failure error; responseStatus := status |}.

(** The request names a locator that parses to [ref]. *)
Definition located (URL_new : string -> option URL) (body : RequestBody)
    (ref : RepoRef) : Prop :=
  exists url,
    repoUrl body = Some url /\ JS.truthy url = true
    /\ parseGitHubUrl URL_new url = Some ref.

(** [requestedBranch || parsed.branch], when it is truthy. *)
Definition givenBranch (body : RequestBody) (ref : RepoRef) : option string :=
  JS.strOr (JS.strOr (requestedBranch body) (branch ref)) None.

(** The branch that the handler reads for a located request, with the
    addresses requested to find it: the branch of the request or of the
    locator, or else the default branch that the metadata lookup reports. *)
Definition resolves (github : HostingService) (body : RequestBody) (ref : RepoRef)
    (targetBranch : string) (requested : list string) : Prop :=
  (givenBranch body ref = Some targetBranch
   /\ requested = [])
  \/ (givenBranch body ref = None
      /\ requested = [GITHUB_API +:+ "/repos/" +:+ owner ref +:+ "/" +:+ repo ref]
      /\ exists repoRes repoData,
           fetchRepo github (GITHUB_API +:+ "/repos/" +:+ owner ref +:+ "/" +:+ repo ref)
             = Returns repoRes
           /\ ok repoRes = true
           /\ json repoRes = Returns repoData
           /\ targetBranch = JS.strOrElse (default_branch repoData) "main").

(** The hosting service of the fetch scenario: a tree of three files, of
    which the second is answered with a not-found status. *)
Definition x_py : TreeItem := {| path := "x.py"; type := "blob"; size := Some 10 |}.
Definition y_py : TreeItem := {| path := "y.py"; type := "blob"; size := Some 20 |}.
Definition z_py : TreeItem := {| path := "z.py"; type := "blob"; size := Some 30 |}.

Definition answer {A} (document : A) : Outcome (HttpResponse A) :=
  Returns {| status := 200; statusText := "OK"; json := Returns document |}.

Definition notFound {A} (document : A) : Outcome (HttpResponse A) :=
  Returns {| status := 404; statusText := "Not Found"; json := Returns document |}.

Definition threeFiles : HostingService :=
  {| fetchRepo := fun _ => answer {| default_branch := Some "main" |};
     fetchTree := fun _ => answer {| tree := Some [x_py; y_py; z_py] |};
     fetchContent := fun url =>
       if String.eqb url
            "https://api.github.com/repos/octocat/Hello-World/contents/y.py?ref=main"
       then notFound {| encoding := None; content := None |}
       else answer {| encoding := Some "base64"; content := Some "cHJpbnQoMSk=" |} |}.

(** A hosting service that answers the metadata lookup with the status
    304. *)
Definition notModified : HostingService :=
  {| fetchRepo := fun _ =>
       Returns {| status := 304; statusText := "Not Modified";
                  json := Returns {| default_branch := None |} |};
     fetchTree := fun _ => answer {| tree := None |};
     fetchContent := fun _ => notFound {| encoding := None; content := None |} |}.

(** A hosting service whose tree lists an entry without a size. *)
Definition n_py : TreeItem := {| path := "n.py"; type := "blob"; size := None |}.

Definition sizeless : HostingService :=
  {| fetchRepo := fun _ => answer {| default_branch := Some "main" |};
     fetchTree := fun _ => answer {| tree := Some [x_py; n_py] |};
     fetchContent := fun _ =>
       answer {| encoding := Some "base64"; content := Some "cHJpbnQoMSk=" |} |}.

(** An entry that counts as size 0. *)
Definition zeroSized (file : TreeItem) : bool := sizeOf file =? 0.

Definition helloWorld : RequestBody :=
  {| repoUrl := Some "octocat/Hello-World"; requestedBranch := Some "main" |}.

Definition recordOf (file : TreeItem) (text : string) : FileRecord :=
  {| file_path := path file; file_content := text;
     file_size := JS.numOr (size file) (Z.of_nat (String.length text));
     file_language := getLanguageFromPath (path file) |}.

(** ** The callers of the route: the repository panel and the page *)

(** [arr.join(sep)] *)
Fixpoint Array_join (sep : string) (l : list string) : string :=
  match l with
  | [] => ""
  | [x] => x
  | x :: rest => x +:+ sep +:+ Array_join sep rest
  end.

(** [[...new Set(arr)]]: a set keeps its members in the order in which they
    were first added. *)
Definition Set_add (seen : list string) (x : string) : list string :=
  if bool_decide (x ∈ seen) then seen else seen ++ [x].

Definition Set_of (l : list string) : list string := fold_left Set_add l [].

Record RepoInfo := { info_owner : string; info_repo : string; info_branch : string }.

(** The request document that the panel sends. *)
Definition requestBody (url : string) (b : option string) : RequestBody :=
  {| repoUrl := Some url; requestedBranch := b |}.

Definition nl : string := String "010" "".

(** *** [handleRepoSubmit] of the page: the message for the analysis agent *)

(** [f.content.split('\n').length] *)
Definition linesOf (f : FileRecord) : Z :=
  Z.of_nat (length (JS.split "010" (file_content f))).

(** [files.reduce((sum, f) => sum + f.content.split('\n').length, 0)] *)
Definition totalLines (files : list FileRecord) : Z :=
  fold_left (fun sum f => sum + linesOf f) files 0.

(** [[...new Set(files.map(f => f.language).filter(l => l && l !== 'Unknown'))]] *)
Definition languagesOf (files : list FileRecord) : list string :=
  Set_of (List.filter (fun l => JS.truthy l && negb (String.eqb l "Unknown"))
            (map file_language files)).

Definition fileContents (files : list FileRecord) : string :=
  Array_join (nl +:+ nl)
    (map (fun f => "--- FILE: " +:+ file_path f +:+ " (" +:+ file_language f
                   +:+ ") ---" +:+ nl +:+ file_content f) files).

Definition repoMessage (files : list FileRecord) (info : RepoInfo) : string :=
  "Review the following GitHub repository code from " +:+ info_owner info +:+ "/"
  +:+ info_repo info +:+ " (branch: " +:+ info_branch info +:+ ")." +:+ nl +:+ nl
  +:+ "Repository contains " +:+ pretty (length files) +:+ " code files across "
  +:+ pretty (length (languagesOf files)) +:+ " languages: "
  +:+ Array_join ", " (languagesOf files) +:+ "." +:+ nl
  +:+ "Total lines of code: " +:+ pretty (totalLines files) +:+ "." +:+ nl +:+ nl
  +:+ "Analyze ALL files together as a complete codebase. Look for:" +:+ nl
  +:+ "- Cross-file issues (inconsistent patterns, missing imports, circular dependencies)" +:+ nl
  +:+ "- Security vulnerabilities across the entire codebase" +:+ nl
  +:+ "- Architecture and design pattern issues" +:+ nl
  +:+ "- Code quality and consistency across files" +:+ nl
  +:+ "- Performance bottlenecks that may span multiple files" +:+ nl +:+ nl
  +:+ "Here are all the files:" +:+ nl +:+ nl
  +:+ fileContents files.

(** The message with which [handleRepoSubmit] calls the agent; [None] when
    it returns without calling it. *)
Definition handleRepoSubmit (files : list FileRecord) (info : RepoInfo) : option string :=
  if (length files =? 0)%nat then None else Some (repoMessage files info).

(** *** The state and the handlers of the panel *)

Module RepoInput.

Record State :=
  { repoUrl : string; branch : string; fetching : bool;
    fetchError : option string; fetchedFiles : list FileRecord;
    repoInfo : option RepoInfo; selectedPaths : gset string;
    treeItems : list (string * option Z); totalInRepo : Z }.

(** The state that the [useState] calls start from. *)
Definition initial : State :=
  {| repoUrl := ""; branch := ""; fetching := false; fetchError := None;
     fetchedFiles := []; repoInfo := None; selectedPaths := ∅;
     treeItems := []; totalInRepo := 0 |}.

Definition setRepoUrl (v : string) (st : State) : State :=
  {| repoUrl := v; branch := branch st; fetching := fetching st;
     fetchError := fetchError st; fetchedFiles := fetchedFiles st;
     repoInfo := repoInfo st; selectedPaths := selectedPaths st;
     treeItems := treeItems st; totalInRepo := totalInRepo st |}.

Definition setBranch (v : string) (st : State) : State :=
  {| repoUrl := repoUrl st; branch := v; fetching := fetching st;
     fetchError := fetchError st; fetchedFiles := fetchedFiles st;
     repoInfo := repoInfo st; selectedPaths := selectedPaths st;
     treeItems := treeItems st; totalInRepo := totalInRepo st |}.

Definition setSelectedPaths (v : gset string) (st : State) : State :=
  {| repoUrl := repoUrl st; branch := branch st; fetching := fetching st;
     fetchError := fetchError st; fetchedFiles := fetchedFiles st;
     repoInfo := repoInfo st; selectedPaths := v;
     treeItems := treeItems st; totalInRepo := totalInRepo st |}.

(** [prev => { const next = new Set(prev); if (next.has(path)) next.delete(path)
    else next.add(path); return next }] *)
Definition handleToggleFile (path : string) (st : State) : State :=
  setSelectedPaths
    (if bool_decide (path ∈ selectedPaths st)
     then selectedPaths st ∖ {[path]}
     else selectedPaths st ∪ {[path]})
    st.

Definition handleSelectAll (st : State) : State :=
  setSelectedPaths (list_to_set (map file_path (fetchedFiles st))) st.

Definition handleDeselectAll (st : State) : State := setSelectedPaths ∅ st.

(** The call [onSubmitRepo(selected, repoInfo)] that [handleSubmit] makes;
    [None] when it returns without calling. *)
Definition handleSubmit (st : State) : option (list FileRecord * RepoInfo) :=
  match repoInfo st with
  | None => None
  | Some info =>
      if (base.size (selectedPaths st) =? 0)%nat then None
      else Some (List.filter (fun f => bool_decide (file_path f ∈ selectedPaths st))
                   (fetchedFiles st),
                 info)
  end.

(** [fetchedFiles.filter(f => selectedPaths.has(f.path)).reduce((sum, f) => sum + f.size, 0)] *)
Definition totalSelectedSize (st : State) : Z :=
  fold_left (fun sum f => sum + file_size f)
    (List.filter (fun f => bool_decide (file_path f ∈ selectedPaths st))
       (fetchedFiles st))
    0.

(** [handleFetch] up to its first [await]: for a blank locator it returns
    at once; otherwise it marks the panel as fetching, clears the error, the
    files, the selection, the tree and the repository, and sends the
    request document.  The panel is drawn in this state while the call is
    under way. *)
Definition handleFetch_start (st : State) : State * option RequestBody :=
  if negb (JS.truthy (JS.trim (repoUrl st))) then (st, None)
  else
    ({| repoUrl := repoUrl st; branch := branch st; fetching := true;
        fetchError := None; fetchedFiles := []; repoInfo := None;
        selectedPaths := ∅; treeItems := []; totalInRepo := totalInRepo st |},
     Some (requestBody (JS.trim (repoUrl st))
             (if JS.truthy (JS.trim (branch st))
              then Some (JS.trim (branch st)) else None))).

(** The rest of [handleFetch], run when the call has settled: [response]
    is what [fetch('/api/github', ...)] followed by [res.json()] settled
    to, the document of the response or the exception of either call; the
    [finally] block ends the fetching. *)
Definition handleFetch_settle (response : Outcome ResponseBody) (st : State) : State :=
  match response with
  | Returns (Success owner repo targetBranch files totalFiles _ _ tree) =>
      {| repoUrl := repoUrl st; branch := branch st; fetching := false;
         fetchError := fetchError st; fetchedFiles := files;
         repoInfo := Some {| info_owner := owner; info_repo := repo;
                             info_branch := targetBranch |};
         selectedPaths := list_to_set (map file_path files);
         treeItems := tree;
         totalInRepo := JS.numOr (Some totalFiles) (Z.of_nat (length files)) |}
  | Returns (Failure error) =>
      {| repoUrl := repoUrl st; branch := branch st; fetching := false;
         fetchError := Some (JS.strOrElse (Some error) "Failed to fetch repository");
         fetchedFiles := fetchedFiles st; repoInfo := repoInfo st;
         selectedPaths := selectedPaths st;
         treeItems := treeItems st; totalInRepo := totalInRepo st |}
  | Throws message =>
      {| repoUrl := repoUrl st; branch := branch st; fetching := false;
         fetchError := Some message;
         fetchedFiles := fetchedFiles st; repoInfo := repoInfo st;
         selectedPaths := selectedPaths st;
         treeItems := treeItems st; totalInRepo := totalInRepo st |}
  end.

(** A run of [handleFetch] from its start to its end with nothing done to
    the panel in between: the state it ends in and the request documents
    it has sent, [api] giving what the call settles to. *)
Definition handleFetch (api : RequestBody -> Outcome ResponseBody) (st : State)
    : State * list RequestBody :=
  match handleFetch_start st with
  | (waiting, Some body) => (handleFetch_settle (api body) waiting, [body])
  | (unchanged, None) => (unchanged, [])
  end.

(** What happens to the panel: the user types into either field, starts
    a fetch with the button or the Enter key, ticks the box of a file or
    uses the two selection buttons, and a call under way settles. *)
Inductive Event : Type :=
| TypeUrl (v : string)
| TypeBranch (v : string)
| Fetch
| Settle (response : Outcome ResponseBody)
| Toggle (path : string)
| SelectAll
| DeselectAll.

(** The fields can always be edited; a fetch starts only when none is
    under way; the boxes and the selection buttons are drawn only with
    [hasFetchedRepo && repoInfo], a box for each fetched file. *)
Definition enabled (st : State) (ev : Event) : Prop :=
  match ev with
  | TypeUrl _ | TypeBranch _ => True
  | Fetch => fetching st = false
  | Settle _ => fetching st = true
  | Toggle path =>
      path ∈ map file_path (fetchedFiles st) /\ is_Some (repoInfo st)
  | SelectAll | DeselectAll =>
      fetchedFiles st <> [] /\ is_Some (repoInfo st)
  end.

Definition step (st : State) (ev : Event) : State :=
  match ev with
  | TypeUrl v => setRepoUrl v st
  | TypeBranch v => setBranch v st
  | Fetch => fst (handleFetch_start st)
  | Settle response => handleFetch_settle response st
  | Toggle path => handleToggleFile path st
  | SelectAll => handleSelectAll st
  | DeselectAll => handleDeselectAll st
  end.

Inductive reachable : State -> Prop :=
| reachable_initial : reachable initial
| reachable_step st ev : reachable st -> enabled st ev -> reachable (step st ev).

End RepoInput.

(** The document that a panel receives when the route has answered. *)
Definition answered (res : NextResponse) : RequestBody -> Outcome ResponseBody :=
  fun _ => Returns (responseBody res).

(** The success response for a tree whose eligible entries are [allFiles]
    and for the records [results]. *)
Definition successResponse (owner repo targetBranch : string)
    (allFiles : list TreeItem) (results : list FileRecord) : NextResponse :=
  {| responseBody :=
       Success owner repo targetBranch results
         (Z.of_nat (length (Array_sort bySize allFiles)))
         (Z.of_nat (length results))
         (Z.of_nat (length (Array_sort bySize allFiles)) - Z.of_nat (length results))
         (map (fun f => (path f, size f)) (Array_sort bySize allFiles));
     responseStatus := 200 |}.

(** The number of occurrences of a code unit in a string. *)
Fixpoint countUnit (c : ascii) (s : string) : nat :=
  match s with
  | EmptyString => 0%nat
  | String d s' => ((if Ascii.eqb d c then 1 else 0) + countUnit c s')%nat
  end.

(** What holds of the panel in every state it is drawn in: only fetched
    files are selected; fetched files come with the repository they are
    from; while a fetch is under way there is no error, no file, no
    repository and no selection; and an error is never shown together
    with files or a repository. *)
Definition panelInvariant (st : RepoInput.State) : Prop :=
  RepoInput.selectedPaths st ⊆ list_to_set (map file_path (RepoInput.fetchedFiles st))
  /\ (RepoInput.fetchedFiles st <> [] -> is_Some (RepoInput.repoInfo st))
  /\ (RepoInput.fetching st = true ->
        RepoInput.fetchError st = None
        /\ RepoInput.fetchedFiles st = []
        /\ RepoInput.repoInfo st = None
        /\ RepoInput.selectedPaths st = ∅)
  /\ (is_Some (RepoInput.fetchError st) ->
        RepoInput.fetchedFiles st = [] /\ RepoInput.repoInfo st = None).

(** * Facts about the string primitives *)

Lemma append_cons c a b : String c a +:+ b = String c (a +:+ b).
Proof. reflexivity. Qed.

Lemma append_nil_l b : "" +:+ b = b.
Proof. reflexivity. Qed.

Lemma truthy_cons c s : JS.truthy (String c s) = true.
Proof. reflexivity. Qed.

Lemma truthy_true s : JS.truthy s = true <-> s <> "".
Proof. destruct s; simpl; split; intros H; try done. Qed.

Lemma every_weaken (p q : ascii -> bool) s :
  (forall c, p c = true -> q c = true) ->
  JS.every p s = true -> JS.every q s = true.
Proof.
  intros Hpq. induction s as [|c s IH]; simpl; [done|].
  intros [Hc Hs]%andb_prop. rewrite (Hpq c Hc), (IH Hs). done.
Qed.

Lemma span_every p s : JS.every p s = true -> JS.span p s = (s, "").
Proof.
  induction s as [|c s IH]; simpl; [done|].
  intros [Hc Hs]%andb_prop. rewrite Hc, (IH Hs). done.
Qed.

Lemma span_stop p a c b :
  JS.every p a = true -> p c = false ->
  JS.span p (a +:+ String c b) = (a, String c b).
Proof.
  intros Ha Hc. induction a as [|d a IH].
  - rewrite append_nil_l. simpl. rewrite Hc. done.
  - rewrite append_cons. simpl in *. apply andb_prop in Ha as [Hd Ha].
    rewrite Hd, (IH Ha). done.
Qed.

Lemma split_every sep s :
  JS.every (fun c => negb (Ascii.eqb c sep)) s = true -> JS.split sep s = [s].
Proof.
  induction s as [|c s IH]; simpl; [done|].
  intros [Hc Hs]%andb_prop. apply negb_true_iff in Hc. rewrite Hc, (IH Hs). done.
Qed.

Lemma split_app sep a b :
  JS.every (fun c => negb (Ascii.eqb c sep)) a = true ->
  JS.split sep (a +:+ String sep b) = a :: JS.split sep b.
Proof.
  induction a as [|c a IH].
  - intros _. rewrite append_nil_l. simpl. rewrite Ascii.eqb_refl. done.
  - rewrite append_cons. simpl. intros [Hc Ha]%andb_prop.
    apply negb_true_iff in Hc. rewrite Hc, (IH Ha). done.
Qed.

Lemma span_spec p s a b :
  JS.span p s = (a, b) ->
  s = a +:+ b /\ JS.every p a = true.
Proof.
  revert a b. induction s as [|c s IH]; simpl; intros a b.
  { intros [= <- <-]. done. }
  destruct (p c) eqn:Hc.
  - destruct (JS.span p s) as [a' b']. intros [= <- <-].
    destruct (IH a' b' eq_refl) as [-> Ha]. rewrite append_cons. simpl.
    rewrite Hc, Ha. done.
  - intros [= <- <-]. done.
Qed.

Lemma nameUnit_notSlash c : nameUnit c = true -> notSlash c = true.
Proof. destruct c as [[] [] [] [] [] [] [] []]; vm_compute; congruence. Qed.

Lemma nameUnit_slash : nameUnit "/" = false.
Proof. reflexivity. Qed.

(** ** Trimming and suffix stripping only shorten *)

Lemma trimStart_shrinks s :
  JS.trimStart s = s \/ (String.length (JS.trimStart s) < String.length s)%nat.
Proof.
  induction s as [|c s IH]; simpl; [by left|].
  destruct (JS.isWhiteSpace c); [|by left].
  right. destruct IH as [-> | ?]; lia.
Qed.

Lemma trimEnd_shrinks s :
  JS.trimEnd s = s \/ (String.length (JS.trimEnd s) < String.length s)%nat.
Proof.
  induction s as [|c s IH]; simpl; [by left|].
  destruct IH as [-> | IH].
  - destruct s; [|by left].
    destruct (JS.isWhiteSpace c); [right; simpl; lia | by left].
  - right. destruct (JS.trimEnd s); [destruct (JS.isWhiteSpace c)|]; simpl in *; lia.
Qed.

Lemma stripSuffix_unfold suffix s :
  JS.stripSuffix suffix s =
    if String.eqb s suffix then ""
    else match s with
         | String c s' => String c (JS.stripSuffix suffix s')
         | EmptyString => EmptyString
         end.
Proof. destruct s; reflexivity. Qed.

Lemma stripSuffix_shrinks suffix s :
  JS.stripSuffix suffix s = s \/
  (String.length (JS.stripSuffix suffix s) < String.length s)%nat.
Proof.
  induction s as [|c s IH]; rewrite stripSuffix_unfold.
  - destruct (String.eqb "" suffix); by left.
  - destruct (String.eqb (String c s) suffix); [right; simpl; lia|].
    destruct IH as [-> | ?]; [by left | right; simpl; lia].
Qed.

Lemma length_append a b :
  String.length (a +:+ b) = (String.length a + String.length b)%nat.
Proof. induction a as [|c a IH]; [done|]. rewrite append_cons. simpl. lia. Qed.

Lemma stripSuffix_app suffix t : JS.stripSuffix suffix (t +:+ suffix) = t.
Proof.
  induction t as [|c t IH]; rewrite stripSuffix_unfold.
  - rewrite append_nil_l, String.eqb_refl. done.
  - destruct (String.eqb_spec (String c t +:+ suffix) suffix) as [E|_].
    + apply (f_equal String.length) in E. rewrite length_append in E.
      simpl in E. lia.
    + rewrite append_cons, IH. done.
Qed.

Lemma stripGit_slash t : JS.stripSuffix ".git" (t +:+ "/") = t +:+ "/".
Proof.
  induction t as [|c t IH]; [reflexivity|].
  rewrite stripSuffix_unfold.
  destruct (String.eqb_spec (String c t +:+ "/") ".git") as [E|_].
  - exfalso. rewrite append_cons in E.
    destruct t as [|? [|? [|? [|? ?]]]]; discriminate E.
  - rewrite append_cons, IH. done.
Qed.

Lemma trimStart_app t x :
  JS.trimStart t = t -> JS.trimStart x = x -> JS.trimStart (t +:+ x) = t +:+ x.
Proof.
  intros Ht Hx. destruct t as [|c t]; [done|].
  rewrite append_cons. simpl in *.
  destruct (JS.isWhiteSpace c); [|done].
  exfalso. destruct (trimStart_shrinks t) as [E|E];
    rewrite Ht in E; [|simpl in E; lia].
  apply (f_equal String.length) in E. simpl in E. lia.
Qed.

Lemma trimEnd_app t x :
  x <> "" -> JS.trimEnd x = x -> JS.trimEnd (t +:+ x) = t +:+ x.
Proof.
  intros Hne Hx. induction t as [|c t IH]; [done|].
  rewrite append_cons. simpl. rewrite IH.
  destruct (t +:+ x) eqn:E; [|done].
  apply (f_equal String.length) in E. rewrite length_append in E.
  destruct x; [done|]. simpl in E. lia.
Qed.

Lemma cleanUrl_fixed t :
  cleanUrl t = t ->
  JS.trimStart t = t /\ JS.trimEnd t = t /\
  JS.stripSuffix ".git" t = t /\ JS.stripSuffix "/" t = t.
Proof.
  unfold cleanUrl, JS.trim. intros E.
  pose proof (f_equal String.length E) as L.
  remember (JS.trimStart t) as a eqn:Ea.
  remember (JS.trimEnd a) as b eqn:Eb.
  remember (JS.stripSuffix ".git" b) as c eqn:Ec.
  remember (JS.stripSuffix "/" c) as d eqn:Ed.
  assert (a = t \/ (String.length a < String.length t)%nat) as H1
    by (subst a; apply trimStart_shrinks).
  assert (b = a \/ (String.length b < String.length a)%nat) as H2
    by (subst b; apply trimEnd_shrinks).
  assert (c = b \/ (String.length c < String.length b)%nat) as H3
    by (subst c; apply stripSuffix_shrinks).
  assert (d = c \/ (String.length d < String.length c)%nat) as H4
    by (subst d; apply stripSuffix_shrinks).
  assert (String.length a <= String.length t)%nat by (destruct H1 as [->|?]; lia).
  assert (String.length b <= String.length a)%nat by (destruct H2 as [->|?]; lia).
  assert (String.length c <= String.length b)%nat by (destruct H3 as [->|?]; lia).
  assert (String.length d <= String.length c)%nat by (destruct H4 as [->|?]; lia).
  destruct H1 as [E1|?]; [|lia]. destruct H2 as [E2|?]; [|lia].
  destruct H3 as [E3|?]; [|lia]. destruct H4 as [E4|?]; [|lia].
  subst a. rewrite E1 in *. subst b. rewrite E2 in *. subst c. rewrite E3 in *.
  subst d. done.
Qed.

Lemma cleanUrl_git t : cleanUrl t = t -> cleanUrl (t +:+ ".git") = t.
Proof.
  intros (Hs & He & Hg & Hl)%cleanUrl_fixed. unfold cleanUrl, JS.trim.
  rewrite trimStart_app, trimEnd_app, stripSuffix_app by done. done.
Qed.

Lemma cleanUrl_slash t : cleanUrl t = t -> cleanUrl (t +:+ "/") = t.
Proof.
  intros (Hs & He & Hg & Hl)%cleanUrl_fixed. unfold cleanUrl, JS.trim.
  rewrite trimStart_app, trimEnd_app, stripGit_slash, stripSuffix_app by done.
  done.
Qed.

(** * The locator parser *)

Section ParserFacts.

Variable URL_new : string -> option URL.

Local Abbreviation parse := (parseGitHubUrl URL_new).

Lemma shortFormat_names o r :
  validName o = true -> validName r = true ->
  shortFormat (o +:+ "/" +:+ r) = true.
Proof.
  unfold validName. intros [To Ho]%andb_prop [Tr Hr]%andb_prop.
  unfold shortFormat.
  change ("/" +:+ r) with (String "/" r).
  rewrite (span_stop nameUnit o "/" r Ho nameUnit_slash).
  rewrite (span_every nameUnit r Hr), To, Tr. reflexivity.
Qed.

Lemma split_names o r :
  validName o = true -> validName r = true ->
  JS.split "/" (o +:+ "/" +:+ r) = [o; r].
Proof.
  unfold validName. intros [_ Ho]%andb_prop [_ Hr]%andb_prop.
  change ("/" +:+ r) with (String "/" r).
  rewrite split_app, split_every; [done| |];
    eapply every_weaken; eauto using nameUnit_notSlash.
Qed.

(** A string in the short format splits at its slash into exactly two
    parts. *)
Lemma shortFormat_two_parts cleaned :
  shortFormat cleaned = true ->
  exists o r, cleaned = o +:+ "/" +:+ r /\ JS.split "/" cleaned = [o; r].
Proof.
  unfold shortFormat.
  destruct (JS.span nameUnit cleaned) as [o rest] eqn:E1.
  intros [To H]%andb_prop.
  destruct rest as [|c r]; [discriminate|].
  destruct (Ascii.eqb_spec c "/") as [->|Hc].
  2:{ destruct c as [[] [] [] [] [] [] [] []]; try discriminate. by destruct Hc. }
  destruct (JS.span nameUnit r) as [n rest'] eqn:E2.
  apply andb_prop in H as [Tn Hrest]. apply String.eqb_eq in Hrest. subst rest'.
  apply span_spec in E1 as [-> Ho]. apply span_spec in E2 as [-> Hn].
  exists o, (n +:+ ""). split; [done|].
  change (String "/" (n +:+ "")) with ("/" +:+ (n +:+ "")).
  apply split_names; unfold validName.
  - by rewrite To, Ho.
  - assert (n +:+ "" = n) as -> by (clear; induction n as [|? ? IH]; [done|];
      rewrite append_cons, IH; done).
    by rewrite Tn, Hn.
Qed.

(** The short format, for any locator that cleans to [owner/name]. *)
Lemma parse_short url o r :
  cleanUrl url = o +:+ "/" +:+ r ->
  validName o = true -> validName r = true ->
  parse url = Some {| owner := o; repo := r; branch := None |}.
Proof.
  intros E Ho Hr. unfold parseGitHubUrl.
  rewrite E, shortFormat_names, split_names by done. done.
Qed.

Lemma segments_two o r :
  segment o = true -> segment r = true ->
  List.filter JS.truthy (JS.split "/" ("/" +:+ o +:+ "/" +:+ r)) = [o; r].
Proof.
  unfold segment. intros [To Ho]%andb_prop [Tr Hr]%andb_prop.
  change ("/" +:+ o +:+ "/" +:+ r) with ("" +:+ String "/" (o +:+ String "/" r)).
  rewrite !split_app, split_every by done.
  simpl. rewrite To, Tr. done.
Qed.

Lemma segments_tree o r b :
  segment o = true -> segment r = true -> segment b = true ->
  List.filter JS.truthy
    (JS.split "/" ("/" +:+ o +:+ "/" +:+ r +:+ "/tree/" +:+ b))
  = [o; r; "tree"; b].
Proof.
  unfold segment.
  intros [To Ho]%andb_prop [Tr Hr]%andb_prop [Tb Hb]%andb_prop.
  change ("/" +:+ o +:+ "/" +:+ r +:+ "/tree/" +:+ b)
    with ("" +:+ String "/" (o +:+ String "/" (r +:+ String "/" ("tree" +:+ String "/" b)))).
  rewrite !split_app, split_every by done.
  simpl. rewrite To, Tr, Tb. done.
Qed.

(** The two web forms, read off what the [URL] class reports. *)
Lemma parse_web url u o r :
  shortFormat (cleanUrl url) = false ->
  URL_new (cleanUrl url) = Some u ->
  hostname u = "github.com" ->
  pathname u = "/" +:+ o +:+ "/" +:+ r ->
  segment o = true -> segment r = true ->
  parse url = Some {| owner := o; repo := r; branch := None |}.
Proof.
  intros Hs Hu Hh Hp Ho Hr. unfold parseGitHubUrl.
  rewrite Hs, Hu, Hh, Hp, segments_two by done. done.
Qed.

Lemma parse_web_tree url u o r b :
  shortFormat (cleanUrl url) = false ->
  URL_new (cleanUrl url) = Some u ->
  hostname u = "github.com" ->
  pathname u = "/" +:+ o +:+ "/" +:+ r +:+ "/tree/" +:+ b ->
  segment o = true -> segment r = true -> segment b = true ->
  parse url = Some {| owner := o; repo := r; branch := Some b |}.
Proof.
  intros Hs Hu Hh Hp Ho Hr Hb. unfold parseGitHubUrl.
  rewrite Hs, Hu, Hh, Hp, segments_tree by done.
  simpl. unfold segment in Hb. apply andb_prop in Hb as [-> _]. done.
Qed.

(** A branch is only ever read from a [tree] segment of a web address. *)
Lemma parse_branch_origin url ref b :
  parse url = Some ref -> branch ref = Some b ->
  exists u,
    shortFormat (cleanUrl url) = false /\
    URL_new (cleanUrl url) = Some u /\
    let parts := List.filter JS.truthy (JS.split "/" (pathname u)) in
    parts !! 2%nat = Some "tree" /\ parts !! 3%nat = Some b.
Proof.
  unfold parseGitHubUrl. intros H Hb.
  destruct (shortFormat (cleanUrl url)).
  { destruct (JS.split "/" (cleanUrl url)) as [|? [|? ?]]; simplify_eq/=. }
  destruct (URL_new (cleanUrl url)) as [u|]; [|done].
  exists u. split; [done|]. split; [done|].
  destruct (negb _); [done|].
  destruct (List.filter _ _) as [|o [|r rest]]; [done..|].
  destruct rest as [|t [|b' rest]]; simplify_eq/=.
  destruct (String.eqb_spec t "tree"); simpl in *; [|done].
  destruct (JS.truthy b'); simplify_eq/=. done.
Qed.

Lemma parse_cleaned u1 u2 : cleanUrl u1 = cleanUrl u2 -> parse u1 = parse u2.
Proof. unfold parseGitHubUrl. intros ->. done. Qed.

(** C9: the parser matches the locator forms against the input trimmed,
    then stripped of one trailing [.git], then of one trailing slash: two
    inputs that clean to the same string parse alike, so a cleaned
    locator followed by [.git] or by a slash parses as the cleaned
    locator itself.  In particular [https://github.com/owner/repo.git]
    parses as [https://github.com/owner/repo], and [owner/repo/],
    [owner/repo.git] and, with blanks around it, [owner/repo/.git] parse
    as [owner/repo]. *)
Theorem parseGitHubUrl_strips :
  (forall u1 u2, cleanUrl u1 = cleanUrl u2 -> parse u1 = parse u2)
  /\ (forall url,
        cleanUrl url = JS.stripSuffix "/" (JS.stripSuffix ".git" (JS.trim url)))
  /\ (forall t, JS.stripSuffix ".git" (t +:+ ".git") = t)
  /\ (forall t, JS.stripSuffix "/" (t +:+ "/") = t)
  /\ (forall t, cleanUrl t = t ->
        parse (t +:+ ".git") = parse t /\ parse (t +:+ "/") = parse t)
  /\ parse "https://github.com/owner/repo.git"
     = parse "https://github.com/owner/repo"
  /\ parse "owner/repo/" = parse "owner/repo"
  /\ parse "owner/repo.git" = parse "owner/repo"
  /\ parse "  owner/repo/.git " = parse "owner/repo"
  /\ parse "owner/repo"
     = Some {| owner := "owner"; repo := "repo"; branch := None |}.
Proof.
  split; [exact parse_cleaned|]. split; [done|].
  split; [intros; apply stripSuffix_app|].
  split; [intros; apply stripSuffix_app|].
  split.
  { intros t Ht. split; apply parse_cleaned.
    - rewrite cleanUrl_git; done.
    - rewrite cleanUrl_slash; done. }
  split; [apply parse_cleaned; vm_compute; reflexivity|].
  split; [apply parse_cleaned; vm_compute; reflexivity|].
  split; [apply parse_cleaned; vm_compute; reflexivity|].
  split; [apply parse_cleaned; vm_compute; reflexivity|].
  vm_compute; reflexivity.
Qed.

End ParserFacts.


(** * The path classifier *)

Lemma extensionOf_no_dot fileName :
  JS.includes "." fileName = false -> extensionOf fileName = "".
Proof. unfold extensionOf. intros ->. done. Qed.

Lemma extensionOf_dot fileName :
  JS.includes "." fileName = true -> JS.truthy (extensionOf fileName) = true.
Proof. unfold extensionOf. intros ->. exact (truthy_cons _ _). Qed.

Lemma existsb_has_false (dirs : gset string) parts :
  existsb (has dirs) parts = false <-> Forall (fun d => d ∉ dirs) parts.
Proof.
  induction parts as [|d parts IH]; simpl.
  - split; [constructor | done].
  - rewrite orb_false_iff, IH, Forall_cons. unfold has.
    rewrite bool_decide_eq_false. done.
Qed.

(** What the classifier computes: a path is kept exactly when no directory
    segment is skipped, the file name is not skipped, the file name has a
    dot, and the lower-cased text after its last dot is a code extension. *)
Lemma shouldIncludeFile_true_iff path :
  let parts := JS.split "/" path in
  let fileName := List.last parts "" in
  shouldIncludeFile path = true <->
    Forall (fun d => d ∉ SKIP_DIRS) (JS.init parts)
    /\ (fileName ∉ SKIP_FILES)
    /\ (JS.includes "." fileName = true)
    /\ ("." +:+ JS.toLowerCase (List.last (JS.split "." fileName) "")) ∈ CODE_EXTENSIONS.
Proof.
  intros parts fileName. unfold shouldIncludeFile.
  fold parts. fold fileName.
  rewrite <- existsb_has_false.
  destruct (existsb (has SKIP_DIRS) (JS.init parts));
    [split; [discriminate | intros [? _]; discriminate]|].
  unfold has at 1. destruct (bool_decide_reflect (fileName ∈ SKIP_FILES)) as [Hf|Hf];
    [split; [discriminate | intros (_ & H & _); destruct (H Hf)]|].
  destruct (JS.includes "." fileName) eqn:Hdot.
  - rewrite (extensionOf_dot _ Hdot). simpl.
    assert (String.eqb fileName "Dockerfile" || String.eqb fileName "Makefile" = false)
      as ->.
    { apply orb_false_iff.
      split; apply String.eqb_neq; intros E; rewrite E in Hdot; discriminate Hdot. }
    unfold extensionOf. rewrite Hdot. unfold has.
    rewrite bool_decide_eq_true.
    split; [intros H; repeat split; assumption | intros (_ & _ & _ & H); exact H].
  - rewrite (extensionOf_no_dot _ Hdot). simpl.
    split; [discriminate | intros (_ & _ & H & _); discriminate].
Qed.

Lemma shouldIncludeFile_skipped_dir path d :
  d ∈ JS.init (JS.split "/" path) -> d ∈ SKIP_DIRS ->
  shouldIncludeFile path = false.
Proof.
  intros Hd Hs. apply not_true_is_false.
  intros (Hall & _)%shouldIncludeFile_true_iff.
  rewrite Forall_forall in Hall. exact (Hall d Hd Hs).
Qed.

(** C2: the classifier rejects every path whose file name has no dot before
    it compares the name with [Dockerfile] and [Makefile], so a path whose
    final segment is exactly one of these two names is never eligible:
    [Dockerfile], [Makefile] and [docker/Dockerfile] are all rejected. *)
Theorem shouldIncludeFile_Dockerfile_Makefile :
  shouldIncludeFile "Dockerfile" = false
  /\ shouldIncludeFile "Makefile" = false
  /\ shouldIncludeFile "docker/Dockerfile" = false
  /\ (forall path,
        List.last (JS.split "/" path) "" = "Dockerfile"
        \/ List.last (JS.split "/" path) "" = "Makefile" ->
        shouldIncludeFile path = false).
Proof.
  split; [reflexivity|]. split; [reflexivity|]. split; [reflexivity|].
  intros path H. apply not_true_is_false.
  intros (_ & _ & Hdot & _)%shouldIncludeFile_true_iff.
  destruct H as [E|E]; rewrite E in Hdot; discriminate Hdot.
Qed.

(** * The stable sort *)

Section SortFacts.
Context {A : Type} (key : A -> Z).

Local Abbreviation cmp := (fun a b : A => key a - key b).
Local Abbreviation le := (fun a b : A => key a <= key b).

Lemma sortInsert_perm x l : sortInsert cmp x l ≡ₚ x :: l.
Proof.
  induction l as [|y l IH]; simpl; [done|].
  destruct (key x - key y <=? 0); [done|].
  rewrite IH. apply Permutation_swap.
Qed.

Lemma Array_sort_perm l : Array_sort cmp l ≡ₚ l.
Proof.
  induction l as [|x l IH]; simpl; [done|].
  rewrite sortInsert_perm, IH. done.
Qed.

Lemma Array_sort_length l : length (Array_sort cmp l) = length l.
Proof. apply Permutation_length, Array_sort_perm. Qed.

Lemma sortInsert_sorted x l :
  StronglySorted le l -> StronglySorted le (sortInsert cmp x l).
Proof.
  induction 1 as [|y l Hl IH Hy]; simpl.
  - repeat constructor.
  - destruct (Z.leb_spec (key x - key y) 0) as [Hxy|Hxy].
    + constructor; [by constructor|].
      constructor; [lia|]. eapply Forall_impl; [exact Hy|].
      simpl. intros. lia.
    + constructor; [done|].
      rewrite sortInsert_perm. constructor; [lia | done].
Qed.

Lemma Array_sort_sorted l : StronglySorted le (Array_sort cmp l).
Proof.
  induction l as [|x l IH]; simpl; [constructor|].
  by apply sortInsert_sorted.
Qed.

(** Stability: entries of equal key keep their listing order. *)
Lemma sortInsert_stable k x l :
  List.filter (fun a => key a =? k) (sortInsert cmp x l)
  = List.filter (fun a => key a =? k) (x :: l).
Proof.
  induction l as [|y l IH]; [done|].
  cbn [sortInsert].
  destruct (Z.leb_spec (key x - key y) 0) as [Hxy|Hxy]; [done|].
  cbn [List.filter] in *. rewrite IH.
  destruct (Z.eqb_spec (key x) k), (Z.eqb_spec (key y) k); try done.
  lia.
Qed.

Lemma Array_sort_stable k l :
  List.filter (fun a => key a =? k) (Array_sort cmp l)
  = List.filter (fun a => key a =? k) l.
Proof.
  induction l as [|x l IH]; [done|].
  cbn [Array_sort]. rewrite sortInsert_stable.
  cbn [List.filter]. rewrite IH. done.
Qed.

End SortFacts.

(** * The budgeted selection *)

Lemma totalOf_app l1 l2 : totalOf (l1 ++ l2) = totalOf l1 + totalOf l2.
Proof. induction l1 as [|f l1 IH]; simpl; lia. Qed.

Lemma sizeOf_absent file : size file = None \/ size file = Some 0 -> sizeOf file = 0.
Proof. unfold sizeOf. intros [-> | ->]; reflexivity. Qed.

Section CollectFacts.

Variable b : SelectionBudget.

Lemma collect_full file rest acc t :
  maxFiles b <= Z.of_nat (length acc) ->
  collect b (file :: rest) acc t = (acc, t).
Proof.
  intros H. simpl.
  destruct (Z.geb_spec (Z.of_nat (length acc)) (maxFiles b)); [done | lia].
Qed.

Lemma collect_oversized file rest acc t :
  Z.of_nat (length acc) < maxFiles b ->
  maxFilePairSize b < sizeOf file ->
  collect b (file :: rest) acc t = collect b rest acc t.
Proof.
  intros H1 H2. simpl.
  destruct (Z.geb_spec (Z.of_nat (length acc)) (maxFiles b)); [lia|].
  destruct (Z.gtb_spec (sizeOf file) (maxFilePairSize b)); [done | lia].
Qed.

Lemma collect_exhausted file rest acc t :
  Z.of_nat (length acc) < maxFiles b ->
  sizeOf file <= maxFilePairSize b ->
  maxTotalSize b < t + sizeOf file ->
  collect b (file :: rest) acc t = (acc, t).
Proof.
  intros H1 H2 H3. simpl.
  destruct (Z.geb_spec (Z.of_nat (length acc)) (maxFiles b)); [lia|].
  destruct (Z.gtb_spec (sizeOf file) (maxFilePairSize b)); [lia|].
  destruct (Z.gtb_spec (t + sizeOf file) (maxTotalSize b)); [done | lia].
Qed.

Lemma collect_admit file rest acc t :
  Z.of_nat (length acc) < maxFiles b ->
  sizeOf file <= maxFilePairSize b ->
  t + sizeOf file <= maxTotalSize b ->
  collect b (file :: rest) acc t
  = collect b rest (acc ++ [file]) (t + sizeOf file).
Proof.
  intros H1 H2 H3. simpl.
  destruct (Z.geb_spec (Z.of_nat (length acc)) (maxFiles b)); [lia|].
  destruct (Z.gtb_spec (sizeOf file) (maxFilePairSize b)); [lia|].
  destruct (Z.gtb_spec (t + sizeOf file) (maxTotalSize b)); [lia | done].
Qed.

(** The four cases of one step of the walk. *)
Lemma collect_cases file rest acc t :
  (maxFiles b <= Z.of_nat (length acc)
     /\ collect b (file :: rest) acc t = (acc, t))
  \/ (Z.of_nat (length acc) < maxFiles b /\ maxFilePairSize b < sizeOf file
     /\ collect b (file :: rest) acc t = collect b rest acc t)
  \/ (Z.of_nat (length acc) < maxFiles b /\ sizeOf file <= maxFilePairSize b
     /\ maxTotalSize b < t + sizeOf file
     /\ collect b (file :: rest) acc t = (acc, t))
  \/ (Z.of_nat (length acc) < maxFiles b /\ sizeOf file <= maxFilePairSize b
     /\ t + sizeOf file <= maxTotalSize b
     /\ collect b (file :: rest) acc t
        = collect b rest (acc ++ [file]) (t + sizeOf file)).
Proof.
  destruct (Z.le_gt_cases (maxFiles b) (Z.of_nat (length acc))) as [H1|H1].
  { left. eauto using collect_full. }
  destruct (Z.le_gt_cases (sizeOf file) (maxFilePairSize b)) as [H2|H2].
  2:{ right; left. eauto using collect_oversized. }
  destruct (Z.le_gt_cases (t + sizeOf file) (maxTotalSize b)) as [H3|H3].
  - do 3 right. eauto using collect_admit.
  - do 2 right; left. eauto using collect_exhausted.
Qed.

(** The walk keeps the three bounds and its running total. *)
Lemma collect_budget files : forall acc t,
  t = totalOf acc ->
  Z.of_nat (length acc) <= maxFiles b ->
  t <= maxTotalSize b ->
  Forall (fun f => sizeOf f <= maxFilePairSize b) acc ->
  let r := collect b files acc t in
  snd r = totalOf (fst r)
  /\ Z.of_nat (length (fst r)) <= maxFiles b
  /\ totalOf (fst r) <= maxTotalSize b
  /\ Forall (fun f => sizeOf f <= maxFilePairSize b) (fst r).
Proof.
  induction files as [|file rest IH]; intros acc t Ht Hn Hs Hf.
  { simpl. subst t. done. }
  destruct (collect_cases file rest acc t)
    as [(_ & ->) | [(_ & _ & ->) | [(_ & _ & _ & ->) | (H1 & H2 & H3 & ->)]]].
  - simpl. subst t. done.
  - by apply IH.
  - simpl. subst t. done.
  - apply IH.
    + rewrite totalOf_app. simpl. lia.
    + rewrite length_app. simpl. lia.
    + done.
    + apply Forall_app. split; [done|]. by constructor.
Qed.

(** What the walk returns: the admitted files are a prefix of the entries
    that fit, every admission was within the count and the total, and the
    first entry left, if any, found the count full or would have passed
    the total. *)
Lemma collect_prefix files : forall acc t,
  exists sel rest,
    collect b files acc t = (acc ++ sel, t + totalOf sel)
    /\ List.filter (fits b) files = sel ++ rest
    /\ (forall sel1 f sel2, sel = sel1 ++ f :: sel2 ->
          Z.of_nat (length (acc ++ sel1)) < maxFiles b
          /\ t + totalOf sel1 + sizeOf f <= maxTotalSize b)
    /\ (rest = [] \/
        exists f rest', rest = f :: rest' /\
          (maxFiles b <= Z.of_nat (length (acc ++ sel))
           \/ maxTotalSize b < t + totalOf sel + sizeOf f)).
Proof.
  induction files as [|file files IH]; intros acc t.
  { exists [], []. simpl. rewrite app_nil_r, Z.add_0_r.
    split; [done|]. split; [done|]. split; [|by left].
    intros sel1 f sel2 E. destruct (app_cons_not_nil _ _ _ E). }
  destruct (collect_cases file files acc t)
    as [(H1 & ->) | [(H1 & H2 & ->) | [(H1 & H2 & H3 & ->) | (H1 & H2 & H3 & ->)]]].
  - exists [], (List.filter (fits b) (file :: files)).
    rewrite app_nil_r, Z.add_0_r.
    split; [done|]. split; [done|]. split.
    { intros sel1 f sel2 E. destruct (app_cons_not_nil _ _ _ E). }
    destruct (List.filter (fits b) (file :: files)) as [|g rest']; [by left|].
    right. exists g, rest'. split; [done|]. left. done.
  - destruct (IH acc t) as (sel & rest & E & F & A & S).
    exists sel, rest. split; [done|]. split; [|done].
    simpl. unfold fits at 1.
    destruct (Z.leb_spec (sizeOf file) (maxFilePairSize b)); [lia | done].
  - exists [], (file :: List.filter (fits b) files).
    rewrite app_nil_r, Z.add_0_r.
    split; [done|]. split.
    { simpl. unfold fits at 1.
      destruct (Z.leb_spec (sizeOf file) (maxFilePairSize b)); [done | lia]. }
    split.
    { intros sel1 f sel2 E. destruct (app_cons_not_nil _ _ _ E). }
    right. exists file, (List.filter (fits b) files).
    split; [done|]. right. simpl. lia.
  - destruct (IH (acc ++ [file]) (t + sizeOf file)) as (sel & rest & E & F & A & S).
    exists (file :: sel), rest. rewrite E, <- app_assoc. simpl.
    split; [f_equal; lia|]. split.
    { unfold fits at 1.
      destruct (Z.leb_spec (sizeOf file) (maxFilePairSize b)); [|lia].
      by rewrite F. }
    split.
    + intros [|g sel1] f sel2 Hsel; simplify_eq/=.
      * rewrite app_nil_r. lia.
      * destruct (A sel1 f sel2 eq_refl) as [A1 A2].
        rewrite <- app_assoc in A1. simpl in A1. split; [done | lia].
    + destruct S as [-> | (f & rest' & -> & S)]; [by left|].
      right. exists f, rest'. split; [done|].
      rewrite <- app_assoc in S. simpl in S.
      destruct S; [left; done | right; lia].
Qed.

End CollectFacts.

(** C1: at the route's limits, whatever the eligible files, the selection
    has at most 50 members, their sizes sum to at most 500000 and each is
    at most 100000, an entry without a size counting as 0. *)
Theorem selection_within_budget (allFiles : list TreeItem) :
  let selected := selectFiles routeBudget allFiles in
  Z.of_nat (length selected) <= 50
  /\ totalOf selected <= 500000
  /\ Forall (fun file => sizeOf file <= 100000) selected
  /\ (forall file, size file = None -> sizeOf file = 0).
Proof.
  destruct (collect_budget routeBudget (Array_sort bySize allFiles) [] 0)
    as (_ & Hn & Hs & Hf); try done.
  split; [exact Hn|]. split; [exact Hs|]. split; [exact Hf|].
  intros file H. apply sizeOf_absent. by left.
Qed.

Lemma sorted_prefix_le {A} (R : A -> A -> Prop) l1 x l2 :
  StronglySorted R (l1 ++ x :: l2) -> Forall (fun y => R y x) l1.
Proof.
  induction l1 as [|a l1 IH]; simpl; [constructor|].
  intros H. apply StronglySorted_inv in H as [Hs Ha].
  constructor; [|by apply IH].
  apply Forall_app in Ha as [_ Ha]. by apply Forall_cons in Ha as [Ha _].
Qed.

(** Between the entries that fit, the selection stops at the first one
    that finds the count full or would pass the total. *)
Lemma selectFiles_prefix b allFiles :
  exists rest,
    List.filter (fits b) (Array_sort bySize allFiles) = selectFiles b allFiles ++ rest
    /\ (forall sel1 f sel2, selectFiles b allFiles = sel1 ++ f :: sel2 ->
          Z.of_nat (length sel1) < maxFiles b
          /\ totalOf sel1 + sizeOf f <= maxTotalSize b)
    /\ (rest = [] \/
        exists f rest', rest = f :: rest' /\
          (maxFiles b <= Z.of_nat (length (selectFiles b allFiles))
           \/ maxTotalSize b < totalOf (selectFiles b allFiles) + sizeOf f)).
Proof.
  unfold selectFiles.
  destruct (collect_prefix b (Array_sort bySize allFiles) [] 0)
    as (sel & rest & -> & F & A & S).
  exists rest. simpl in *. split; [done|]. split; [|done].
  intros sel1 f sel2 E. apply (A sel1 f sel2 E).
Qed.

(** C3: the selection sorts the eligible files by size, ascending and
    stably, and then walks them: with room left in the count, an entry
    larger than the per-file limit is passed over and the walk goes on; an
    entry that would take the total past its limit, or that finds the count
    full, ends the walk with what was admitted so far; any other entry is
    admitted.  So the selection is a prefix of the sorted entries that fit
    the per-file limit, ending at the first that finds the count full or
    would pass the total.  In the tree [a.py] (50), [b/node_modules/c.js]
    (10), [d.md] (5000), the second path is not eligible, the sorted order
    is [a.py], [d.md], and with a total limit of 100 exactly [a.py] is
    selected. *)
Theorem selection_walk :
  (forall allFiles,
      Array_sort bySize allFiles ≡ₚ allFiles
      /\ StronglySorted (fun a b => sizeOf a <= sizeOf b) (Array_sort bySize allFiles)
      /\ forall k,
           List.filter (fun f => sizeOf f =? k) (Array_sort bySize allFiles)
           = List.filter (fun f => sizeOf f =? k) allFiles)
  /\ (forall b allFiles,
        selectFiles b allFiles = fst (collect b (Array_sort bySize allFiles) [] 0))
  /\ (forall b file rest acc t,
        Z.of_nat (length acc) < maxFiles b ->
        maxFilePairSize b < sizeOf file ->
        collect b (file :: rest) acc t = collect b rest acc t)
  /\ (forall b file rest acc t,
        Z.of_nat (length acc) < maxFiles b ->
        sizeOf file <= maxFilePairSize b ->
        maxTotalSize b < t + sizeOf file ->
        collect b (file :: rest) acc t = (acc, t))
  /\ (forall b file rest acc t,
        maxFiles b <= Z.of_nat (length acc) ->
        collect b (file :: rest) acc t = (acc, t))
  /\ (forall b file rest acc t,
        Z.of_nat (length acc) < maxFiles b ->
        sizeOf file <= maxFilePairSize b ->
        t + sizeOf file <= maxTotalSize b ->
        collect b (file :: rest) acc t
        = collect b rest (acc ++ [file]) (t + sizeOf file))
  /\ (forall b allFiles,
        exists rest,
          List.filter (fits b) (Array_sort bySize allFiles)
          = selectFiles b allFiles ++ rest
          /\ (forall sel1 f sel2, selectFiles b allFiles = sel1 ++ f :: sel2 ->
                Z.of_nat (length sel1) < maxFiles b
                /\ totalOf sel1 + sizeOf f <= maxTotalSize b)
          /\ (rest = [] \/
              exists f rest', rest = f :: rest' /\
                (maxFiles b <= Z.of_nat (length (selectFiles b allFiles))
                 \/ maxTotalSize b < totalOf (selectFiles b allFiles) + sizeOf f)))
  /\ shouldIncludeFile (path c_js) = false
  /\ eligible [a_py; c_js; d_md] = [a_py; d_md]
  /\ Array_sort bySize (eligible [a_py; c_js; d_md]) = [a_py; d_md]
  /\ collect smallBudget [a_py; d_md] [] 0 = collect smallBudget [d_md] [a_py] 50
  /\ collect smallBudget [d_md] [a_py] 50 = ([a_py], 50)
  /\ selectFiles smallBudget (eligible [a_py; c_js; d_md]) = [a_py].
Proof.
  split.
  { intros allFiles. split; [exact (Array_sort_perm sizeOf allFiles)|].
    split; [exact (Array_sort_sorted sizeOf allFiles)|].
    intros k. exact (Array_sort_stable sizeOf k allFiles). }
  split; [done|].
  split; [exact collect_oversized|]. split; [exact collect_exhausted|].
  split; [exact collect_full|]. split; [exact collect_admit|].
  split; [exact selectFiles_prefix|].
  repeat split; vm_compute; reflexivity.
Qed.

(** * Promises and batches *)

Lemma settle_length {A} completion (settled : list A) : forall slots,
  length (settle completion settled slots) = length slots.
Proof.
  induction completion as [|i later IH]; intros slots; simpl; [done|].
  rewrite IH. destruct (settled !! i); [apply length_insert | done].
Qed.

Lemma settle_lookup {A} completion (settled : list A) : forall slots i,
  length slots = length settled ->
  settle completion settled slots !! i
  = if decide (i ∈ completion) then Some <$> settled !! i else slots !! i.
Proof.
  induction completion as [|j later IH]; intros slots i Hlen; cbn [settle].
  { rewrite decide_False; [done | apply not_elem_of_nil]. }
  rewrite IH by (destruct (settled !! j); rewrite ?length_insert; done).
  destruct (decide (i ∈ later)) as [Hin|Hin].
  { rewrite decide_True; [done | by right]. }
  destruct (decide (i = j)) as [->|Hne].
  - rewrite decide_True by left.
    destruct (settled !! j) as [v|] eqn:E; simpl.
    + apply list_lookup_insert_eq. rewrite Hlen. by eapply lookup_lt_Some.
    + apply lookup_ge_None. rewrite Hlen. by apply lookup_ge_None.
  - rewrite decide_False by (rewrite elem_of_cons; intros [?|?]; done).
    destruct (settled !! j); [by apply list_lookup_insert_ne | done].
Qed.

(** Once every promise has settled, [Promise.all] delivers what they
    settled to in the order of the promises, whatever the order in which
    they settled. *)
Lemma Promise_all_settled {A} completion (settled : list A) :
  completion ≡ₚ seq 0 (length settled) ->
  Promise_all completion settled = Some settled.
Proof.
  intros Hperm. unfold Promise_all.
  assert (settle completion settled (replicate (length settled) None)
          = Some <$> settled) as ->.
  { apply list_eq. intros i.
    rewrite settle_lookup by apply length_replicate.
    rewrite list_lookup_fmap.
    destruct (decide (i ∈ completion)) as [Hin|Hin]; [done|].
    rewrite Hperm, elem_of_seq in Hin.
    assert (length settled <= i)%nat as Hge by lia.
    rewrite (proj1 (lookup_replicate_None _ _ _)) by done.
    apply lookup_ge_None in Hge. rewrite Hge. done. }
  by apply mapM_fmap_Some.
Qed.

Lemma omap_id_map {A B} (f : A -> option B) l : omap id (map f l) = omap f l.
Proof.
  induction l as [|x l IH]; [done|].
  change (omap id (map f (x :: l)))
    with (match f x with Some y => y :: omap id (map f l) | None => omap id (map f l) end).
  rewrite IH. done.
Qed.

Lemma length_omap_le {A B} (f : A -> option B) l : (length (omap f l) <= length l)%nat.
Proof. induction l as [|x l IH]; csimpl; [done|]. destruct (f x); simpl; lia. Qed.

Section BatchFacts.

Variable decodeBase64 : string -> string.
Variable github : HostingService.
Variable completion : nat -> list nat.
Variables owner repo targetBranch : string.
Variable filesToFetch : list TreeItem.

Local Abbreviation fetchOne := (fetchFile decodeBase64 github owner repo targetBranch).
Local Abbreviation address := (contentAddress owner repo targetBranch).

(** The loop delivers, for the files from index [i] on, the records of
    those whose promise settled to a record, in the order of the files,
    having requested each of them. *)
Lemma fetchBatches_run :
  fair completion filesToFetch ->
  forall fuel i results log,
    (length filesToFetch - i < fuel)%nat ->
    fetchBatches decodeBase64 github completion fuel owner repo targetBranch
      filesToFetch i results log
    = (Done (results ++ omap fetchOne (drop i filesToFetch)),
       log ++ map address (drop i filesToFetch)).
Proof.
  intros Hfair. induction fuel as [|fuel IH]; intros i results log Hfuel; [lia|].
  cbn [fetchBatches]. destruct (Nat.ltb_spec i (length filesToFetch)) as [Hi|Hi].
  - unfold bind, awaitAll.
    rewrite Promise_all_settled by (rewrite length_map; apply Hfair).
    rewrite IH by (unfold BATCH_SIZE; lia).
    rewrite omap_id_map, <- !app_assoc, <- omap_app, <- map_app.
    rewrite <- drop_drop, take_drop. done.
  - rewrite drop_ge by lia. simpl. rewrite !app_nil_r. done.
Qed.

Lemma fetchFile_path file record :
  fetchOne file = Some record -> file_path record = path file.
Proof.
  unfold fetchFile, normalize.
  repeat (case_match; try discriminate). by intros [= <-].
Qed.

Lemma omap_fetch_sublist files :
  map file_path (omap fetchOne files) `sublist_of` map path files.
Proof.
  induction files as [|file files IH]; simpl; [done|].
  destruct (fetchOne file) as [record|] eqn:E; simpl.
  - rewrite (fetchFile_path _ _ E). by constructor.
  - by constructor.
Qed.

End BatchFacts.

Lemma inOrder_fair filesToFetch : fair (inOrder filesToFetch) filesToFetch.
Proof. intros i. reflexivity. Qed.

Lemma lastFirst_fair filesToFetch : fair (lastFirst filesToFetch) filesToFetch.
Proof. intros i. unfold lastFirst. symmetry. apply Permutation_rev. Qed.

(** * The handler *)

Lemma failure_accepted Response_error e s log :
  Response_accepts s = true ->
  failure Response_error e s log = (Done (rejected e s), log).
Proof.
  intros H. unfold failure, NextResponse_json, await. cbv zeta.
  change (default 200 (Some s)) with s. rewrite H. done.
Qed.

Lemma failure_refused Response_error e s log :
  Response_accepts s = false ->
  failure Response_error e s log = (Raise (Response_error s), log).
Proof.
  intros H. unfold failure, NextResponse_json, await. cbv zeta.
  change (default 200 (Some s)) with s. rewrite H. done.
Qed.

Lemma failure_cases Response_error e s log :
  failure Response_error e s log = (Done (rejected e s), log)
  \/ failure Response_error e s log = (Raise (Response_error s), log).
Proof.
  destruct (Response_accepts s) eqn:H;
    [left; by apply failure_accepted | right; by apply failure_refused].
Qed.

Ltac failure_split :=
  match goal with
  | |- context [failure ?R ?e ?s ?l] =>
      destruct (failure_cases R e s l) as [-> | ->]
  end.

Lemma respond_success Response_error body log :
  await (NextResponse_json Response_error body None) log
  = (Done {| responseBody := body; responseStatus := 200 |}, log).
Proof. reflexivity. Qed.

Section PostFacts.

Variable URL_new : string -> option URL.
Variable decodeBase64 : string -> string.
Variable Response_error : Z -> string.
Variable github : HostingService.
Variable completion : nat -> list nat.

Local Abbreviation post := (POST URL_new decodeBase64 Response_error github completion).
Local Abbreviation stage1 := (resolveBranch Response_error github).
Local Abbreviation stage23 := (fetchTreeAndContents decodeBase64 Response_error
    github completion).
Local Abbreviation fetchOne := (fetchFile decodeBase64 github).

(** *** The metadata lookup *)

Lemma resolveBranch_given o r branch tb log :
  JS.strOr branch None = Some tb ->
  stage1 o r branch log = (Done (inl tb), log).
Proof. intros H. unfold resolveBranch. rewrite H. done. Qed.

Lemma resolveBranch_throws o r branch m log :
  JS.strOr branch None = None ->
  fetchRepo github (repoAddress o r) = Throws m ->
  stage1 o r branch log = (Raise m, log ++ [repoAddress o r]).
Proof.
  intros Hb H. unfold resolveBranch, bind, fetch, await. rewrite Hb, H. done.
Qed.

Lemma resolveBranch_not_ok o r branch repoRes log :
  JS.strOr branch None = None ->
  fetchRepo github (repoAddress o r) = Returns repoRes ->
  ok repoRes = false ->
  Response_accepts (status repoRes) = true ->
  exists e,
    stage1 o r branch log
    = (Done (inr (rejected e (status repoRes))), log ++ [repoAddress o r]).
Proof.
  intros Hb H Hok Ha. unfold resolveBranch, bind at 1, fetch, await.
  rewrite Hb, H, Hok. cbn [negb]. unfold bind.
  destruct (Z.eqb_spec (status repoRes) 404) as [E|_].
  - rewrite failure_accepted by done. rewrite <- E. eauto.
  - rewrite failure_accepted by done. eauto.
Qed.

Lemma resolveBranch_refused o r branch repoRes log :
  JS.strOr branch None = None ->
  fetchRepo github (repoAddress o r) = Returns repoRes ->
  ok repoRes = false ->
  Response_accepts (status repoRes) = false ->
  stage1 o r branch log
  = (Raise (Response_error (status repoRes)), log ++ [repoAddress o r]).
Proof.
  intros Hb H Hok Ha. unfold resolveBranch, bind at 1, fetch, await.
  rewrite Hb, H, Hok. cbn [negb]. unfold bind.
  destruct (Z.eqb_spec (status repoRes) 404) as [E|_].
  - rewrite E in Ha. discriminate.
  - rewrite failure_refused by done. done.
Qed.

Lemma resolveBranch_bad_json o r branch repoRes m log :
  JS.strOr branch None = None ->
  fetchRepo github (repoAddress o r) = Returns repoRes ->
  ok repoRes = true -> json repoRes = Throws m ->
  stage1 o r branch log = (Raise m, log ++ [repoAddress o r]).
Proof.
  intros Hb H Hok Hj. unfold resolveBranch, bind, fetch, await.
  rewrite Hb, H, Hok, Hj. done.
Qed.

Lemma resolveBranch_default o r branch repoRes repoData log :
  JS.strOr branch None = None ->
  fetchRepo github (repoAddress o r) = Returns repoRes ->
  ok repoRes = true -> json repoRes = Returns repoData ->
  stage1 o r branch log
  = (Done (inl (JS.strOrElse (default_branch repoData) "main")),
     log ++ [repoAddress o r]).
Proof.
  intros Hb H Hok Hj. unfold resolveBranch, bind, fetch, await.
  rewrite Hb, H, Hok, Hj. done.
Qed.

Lemma resolveBranch_resolves body ref tb requested log :
  resolves github body ref tb requested ->
  stage1 (owner ref) (repo ref) (JS.strOr (requestedBranch body) (branch ref)) log
  = (Done (inl tb), log ++ requested).
Proof.
  unfold givenBranch.
  intros [(Hb & ->) | (Hb & -> & repoRes & repoData & H & Hok & Hj & ->)].
  - rewrite app_nil_r. by apply resolveBranch_given.
  - by apply resolveBranch_default with (repoRes := repoRes).
Qed.

(** *** The tree lookup and the contents *)

Lemma tree_throws o r tb m log :
  fetchTree github (treeAddress o r tb) = Throws m ->
  stage23 o r tb log = (Raise m, log ++ [treeAddress o r tb]).
Proof.
  intros H. unfold fetchTreeAndContents, bind, fetch, await. rewrite H. done.
Qed.

Lemma tree_not_ok o r tb treeRes log :
  fetchTree github (treeAddress o r tb) = Returns treeRes ->
  ok treeRes = false ->
  Response_accepts (status treeRes) = true ->
  exists e,
    stage23 o r tb log
    = (Done (rejected e (status treeRes)), log ++ [treeAddress o r tb]).
Proof.
  intros H Hok Ha. unfold fetchTreeAndContents, bind, fetch, await at 1.
  rewrite H, Hok. cbn [negb]. rewrite failure_accepted by done. eauto.
Qed.

Lemma tree_refused o r tb treeRes log :
  fetchTree github (treeAddress o r tb) = Returns treeRes ->
  ok treeRes = false ->
  Response_accepts (status treeRes) = false ->
  stage23 o r tb log
  = (Raise (Response_error (status treeRes)), log ++ [treeAddress o r tb]).
Proof.
  intros H Hok Ha. unfold fetchTreeAndContents, bind, fetch, await at 1.
  rewrite H, Hok. cbn [negb]. rewrite failure_refused by done. done.
Qed.

Lemma tree_bad_json o r tb treeRes m log :
  fetchTree github (treeAddress o r tb) = Returns treeRes ->
  ok treeRes = true -> json treeRes = Throws m ->
  stage23 o r tb log = (Raise m, log ++ [treeAddress o r tb]).
Proof.
  intros H Hok Hj. unfold fetchTreeAndContents, bind, fetch, await.
  rewrite H, Hok, Hj. done.
Qed.

Lemma tree_success o r tb treeRes treeData log :
  fetchTree github (treeAddress o r tb) = Returns treeRes ->
  ok treeRes = true -> json treeRes = Returns treeData ->
  let allFiles := Array_sort bySize (eligible (default [] (tree treeData))) in
  let selected := selectFiles routeBudget (eligible (default [] (tree treeData))) in
  let results := omap (fetchOne o r tb) selected in
  fair completion selected ->
  stage23 o r tb log
  = (Done {| responseBody :=
               Success o r tb results
                 (Z.of_nat (length allFiles))
                 (Z.of_nat (length results))
                 (Z.of_nat (length allFiles) - Z.of_nat (length results))
                 (map (fun f => (path f, size f)) allFiles);
             responseStatus := 200 |},
     log ++ [treeAddress o r tb] ++ map (contentAddress o r tb) selected).
Proof.
  intros H Hok Hj allFiles selected results Hfair.
  unfold fetchTreeAndContents, bind at 1, fetch, await. rewrite H, Hok.
  cbn [negb]. unfold bind at 1. rewrite Hj.
  fold allFiles. change (fst (collect routeBudget allFiles [] 0)) with selected.
  unfold bind.
  rewrite (fetchBatches_run decodeBase64 github completion o r tb selected Hfair)
    by lia.
  rewrite drop_0, app_nil_l, <- app_assoc. done.
Qed.

(** *** The handler as a whole *)

Lemma POST_located body ref log :
  located URL_new body ref ->
  post (Returns body) log
  = tryCatch (resolved <- stage1 (owner ref) (repo ref)
                       (JS.strOr (requestedBranch body) (branch ref)) ;;
         match resolved with
         | inr response => ret response
         | inl tb => stage23 (owner ref) (repo ref) tb
         end)
        (fun message => failure Response_error message 500) log.
Proof.
  intros (url & Hu & Ht & Hp). unfold POST, tryCatch, bind at 1, await.
  rewrite Hu, Ht, Hp. done.
Qed.

Lemma POST_missing body log :
  repoUrl body = None \/ repoUrl body = Some "" ->
  post (Returns body) log = (Done (rejected "repoUrl is required" 400), log).
Proof. intros [H|H]; unfold POST, tryCatch, bind, await; rewrite H; done. Qed.

Lemma POST_invalid body url log :
  repoUrl body = Some url -> parseGitHubUrl URL_new url = None ->
  exists e, post (Returns body) log = (Done (rejected e 400), log).
Proof.
  intros Hu Hp. unfold POST, tryCatch, bind, await. rewrite Hu, Hp.
  destruct (JS.truthy url); simpl; eauto.
Qed.

Lemma POST_bad_request m log :
  post (Throws m) log = (Done (rejected m 500), log).
Proof. reflexivity. Qed.

Lemma POST_metadata_throws body ref m log :
  located URL_new body ref ->
  givenBranch body ref = None ->
  fetchRepo github (repoAddress (owner ref) (repo ref)) = Throws m ->
  post (Returns body) log
  = (Done (rejected m 500), log ++ [repoAddress (owner ref) (repo ref)]).
Proof.
  intros Hl Hb H. rewrite (POST_located _ _ _ Hl). unfold tryCatch, bind.
  rewrite (resolveBranch_throws _ _ _ _ _ Hb H). done.
Qed.

Lemma POST_metadata_not_ok body ref repoRes log :
  located URL_new body ref ->
  givenBranch body ref = None ->
  fetchRepo github (repoAddress (owner ref) (repo ref)) = Returns repoRes ->
  ok repoRes = false ->
  Response_accepts (status repoRes) = true ->
  exists e,
    post (Returns body) log
    = (Done (rejected e (status repoRes)),
       log ++ [repoAddress (owner ref) (repo ref)]).
Proof.
  intros Hl Hb H Hok Ha. rewrite (POST_located _ _ _ Hl). unfold tryCatch, bind.
  destruct (resolveBranch_not_ok _ _ _ _ log Hb H Hok Ha) as (e & ->). eauto.
Qed.

Lemma POST_metadata_refused body ref repoRes log :
  located URL_new body ref ->
  givenBranch body ref = None ->
  fetchRepo github (repoAddress (owner ref) (repo ref)) = Returns repoRes ->
  ok repoRes = false ->
  Response_accepts (status repoRes) = false ->
  post (Returns body) log
  = (Done (rejected (Response_error (status repoRes)) 500),
     log ++ [repoAddress (owner ref) (repo ref)]).
Proof.
  intros Hl Hb H Hok Ha. rewrite (POST_located _ _ _ Hl). unfold tryCatch, bind.
  rewrite (resolveBranch_refused _ _ _ _ log Hb H Hok Ha). done.
Qed.

Lemma POST_metadata_bad_json body ref repoRes m log :
  located URL_new body ref ->
  givenBranch body ref = None ->
  fetchRepo github (repoAddress (owner ref) (repo ref)) = Returns repoRes ->
  ok repoRes = true -> json repoRes = Throws m ->
  post (Returns body) log
  = (Done (rejected m 500), log ++ [repoAddress (owner ref) (repo ref)]).
Proof.
  intros Hl Hb H Hok Hj. rewrite (POST_located _ _ _ Hl). unfold tryCatch, bind.
  rewrite (resolveBranch_bad_json _ _ _ _ _ _ Hb H Hok Hj). done.
Qed.

Lemma POST_tree_throws body ref tb requested m log :
  located URL_new body ref -> resolves github body ref tb requested ->
  fetchTree github (treeAddress (owner ref) (repo ref) tb) = Throws m ->
  post (Returns body) log
  = (Done (rejected m 500),
     (log ++ requested) ++ [treeAddress (owner ref) (repo ref) tb]).
Proof.
  intros Hl Hr H. rewrite (POST_located _ _ _ Hl). unfold tryCatch, bind.
  rewrite (resolveBranch_resolves _ _ _ _ _ Hr), (tree_throws _ _ _ _ _ H). done.
Qed.

Lemma POST_tree_not_ok body ref tb requested treeRes log :
  located URL_new body ref -> resolves github body ref tb requested ->
  fetchTree github (treeAddress (owner ref) (repo ref) tb) = Returns treeRes ->
  ok treeRes = false ->
  Response_accepts (status treeRes) = true ->
  exists e,
    post (Returns body) log
    = (Done (rejected e (status treeRes)),
       (log ++ requested) ++ [treeAddress (owner ref) (repo ref) tb]).
Proof.
  intros Hl Hr H Hok Ha. rewrite (POST_located _ _ _ Hl). unfold tryCatch, bind.
  rewrite (resolveBranch_resolves _ _ _ _ _ Hr).
  destruct (tree_not_ok _ _ _ _ (log ++ requested) H Hok Ha) as (e & ->). eauto.
Qed.

Lemma POST_tree_refused body ref tb requested treeRes log :
  located URL_new body ref -> resolves github body ref tb requested ->
  fetchTree github (treeAddress (owner ref) (repo ref) tb) = Returns treeRes ->
  ok treeRes = false ->
  Response_accepts (status treeRes) = false ->
  post (Returns body) log
  = (Done (rejected (Response_error (status treeRes)) 500),
     (log ++ requested) ++ [treeAddress (owner ref) (repo ref) tb]).
Proof.
  intros Hl Hr H Hok Ha. rewrite (POST_located _ _ _ Hl). unfold tryCatch, bind.
  rewrite (resolveBranch_resolves _ _ _ _ _ Hr).
  rewrite (tree_refused _ _ _ _ (log ++ requested) H Hok Ha). done.
Qed.

Lemma POST_tree_bad_json body ref tb requested treeRes m log :
  located URL_new body ref -> resolves github body ref tb requested ->
  fetchTree github (treeAddress (owner ref) (repo ref) tb) = Returns treeRes ->
  ok treeRes = true -> json treeRes = Throws m ->
  post (Returns body) log
  = (Done (rejected m 500),
     (log ++ requested) ++ [treeAddress (owner ref) (repo ref) tb]).
Proof.
  intros Hl Hr H Hok Hj. rewrite (POST_located _ _ _ Hl). unfold tryCatch, bind.
  rewrite (resolveBranch_resolves _ _ _ _ _ Hr),
    (tree_bad_json _ _ _ _ _ _ H Hok Hj). done.
Qed.

Lemma POST_success body ref tb requested treeRes treeData log :
  located URL_new body ref -> resolves github body ref tb requested ->
  fetchTree github (treeAddress (owner ref) (repo ref) tb) = Returns treeRes ->
  ok treeRes = true -> json treeRes = Returns treeData ->
  let allFiles := Array_sort bySize (eligible (default [] (tree treeData))) in
  let selected := selectFiles routeBudget (eligible (default [] (tree treeData))) in
  let results := omap (fetchOne (owner ref) (repo ref) tb) selected in
  fair completion selected ->
  post (Returns body) log
  = (Done {| responseBody :=
               Success (owner ref) (repo ref) tb results
                 (Z.of_nat (length allFiles))
                 (Z.of_nat (length results))
                 (Z.of_nat (length allFiles) - Z.of_nat (length results))
                 (map (fun f => (path f, size f)) allFiles);
             responseStatus := 200 |},
     (log ++ requested) ++ [treeAddress (owner ref) (repo ref) tb]
       ++ map (contentAddress (owner ref) (repo ref) tb) selected).
Proof.
  intros Hl Hr H Hok Hj allFiles selected results Hfair.
  rewrite (POST_located _ _ _ Hl). unfold tryCatch, bind.
  rewrite (resolveBranch_resolves _ _ _ _ _ Hr).
  rewrite (tree_success _ _ _ _ _ _ H Hok Hj Hfair). done.
Qed.

End PostFacts.

(** ** The three-file scenario *)

Lemma threeFiles_run :
  POST URL_plain base64_plain Response_error_plain threeFiles (lastFirst [x_py; y_py; z_py])
    (Returns helloWorld) []
  = (Done {| responseBody :=
               Success "octocat" "Hello-World" "main"
                 [recordOf x_py "print(1)"; recordOf z_py "print(1)"]
                 3 2 1 [("x.py", Some 10); ("y.py", Some 20); ("z.py", Some 30)];
             responseStatus := 200 |},
     [ "https://api.github.com/repos/octocat/Hello-World/git/trees/main?recursive=1";
       "https://api.github.com/repos/octocat/Hello-World/contents/x.py?ref=main";
       "https://api.github.com/repos/octocat/Hello-World/contents/y.py?ref=main";
       "https://api.github.com/repos/octocat/Hello-World/contents/z.py?ref=main" ]).
Proof. vm_compute. reflexivity. Qed.

(** ** The counts of a success response *)

Section CountFacts.

Variable URL_new : string -> option URL.
Variable decodeBase64 : string -> string.
Variable Response_error : Z -> string.
Variable github : HostingService.
Variable completion : nat -> list nat.

Lemma stage1_rejects o r branch log response log' :
  resolveBranch Response_error github o r branch log = (Done (inr response), log') ->
  succeeded response = false.
Proof.
  unfold resolveBranch, bind at 1, fetch, await.
  destruct (JS.strOr branch None); [discriminate|].
  destruct (fetchRepo github _) as [repoRes|]; [|discriminate].
  destruct (negb (ok repoRes)).
  - unfold bind.
    destruct (status repoRes =? 404); failure_split;
      first [discriminate | intros [= <- _]; reflexivity].
  - unfold bind. destruct (json repoRes); discriminate.
Qed.

Lemma stage23_counts o r tb log res log' o' r' b' files total fetched truncated tree :
  fetchTreeAndContents decodeBase64 Response_error github completion
      o r tb log = (Done res, log') ->
  responseBody res = Success o' r' b' files total fetched truncated tree ->
  fetched = Z.of_nat (length files)
  /\ truncated = total - Z.of_nat (length files).
Proof.
  unfold fetchTreeAndContents, bind at 1, fetch, await at 1.
  destruct (fetchTree github _) as [treeRes|]; [|discriminate].
  destruct (negb (ok treeRes)).
  { failure_split; [intros [= <- _]; discriminate | discriminate]. }
  unfold bind at 1, await at 1. destruct (json treeRes) as [treeData|]; [|discriminate].
  unfold bind.
  destruct (fetchBatches _ _ _ _ _ _ _ _ _ _ _) as [[results| |] log2];
    [|discriminate..].
  rewrite respond_success.
  intros [= <- _] [= _ _ _ <- <- <- <- _]. done.
Qed.

Lemma POST_counts request log res log' o r b files total fetched truncated tree :
  POST URL_new decodeBase64 Response_error github completion
      request log = (Done res, log') ->
  responseBody res = Success o r b files total fetched truncated tree ->
  fetched = Z.of_nat (length files)
  /\ truncated = total - Z.of_nat (length files).
Proof.
  unfold POST, tryCatch, bind at 1, await. destruct request as [body|m].
  2:{ rewrite failure_accepted by reflexivity. intros [= <- _]. discriminate. }
  destruct (repoUrl body) as [url|];
    [|rewrite failure_accepted by reflexivity; intros [= <- _]; discriminate].
  destruct (negb (JS.truthy url));
    [rewrite failure_accepted by reflexivity; intros [= <- _]; discriminate|].
  destruct (parseGitHubUrl URL_new url) as [parsed|];
    [|rewrite failure_accepted by reflexivity; intros [= <- _]; discriminate].
  unfold bind.
  destruct (resolveBranch _ _ _ _ _ _) as [[[tb|response]| |] log1] eqn:E1.
  - destruct (fetchTreeAndContents _ _ _ _ _ _ _ _) as [[res'| |] log2] eqn:E2.
    + intros [= <- _]. by eapply stage23_counts.
    + rewrite failure_accepted by reflexivity. intros [= <- _]. discriminate.
    + discriminate.
  - intros [= <- _] Hb. apply stage1_rejects in E1.
    unfold succeeded in E1. rewrite Hb in E1. discriminate.
  - rewrite failure_accepted by reflexivity. intros [= <- _]. discriminate.
  - discriminate.
Qed.

End CountFacts.

(** * Fetching and failures *)

(** C5: a file whose fetch throws, is answered with a non-success status,
    has an unreadable document, carries another encoding than [base64] or
    decodes to text with a null character yields no record, and nothing
    else happens: when every fetch settles, the batches request every
    selected file and deliver the records of the files that yielded one,
    possibly fewer than were selected; the handler then answers with these
    records, and in every success response the truncated count is the
    total count minus the number of records.  In the tree of three files
    whose second is answered with status 404, the records are those of the
    first and the third and the truncated count is 1. *)
Theorem fetch_failures_are_dropped
    (URL_new : string -> option URL) (decodeBase64 : string -> string)
    (Response_error : Z -> string) (github : HostingService)
        (completion : nat -> list nat) :
  (forall o r tb file,
      let address := contentAddress o r tb file in
      let fetched := fetchFile decodeBase64 github o r tb file in
      (forall m, fetchContent github address = Throws m -> fetched = None)
      /\ (forall res, fetchContent github address = Returns res ->
            ok res = false -> fetched = None)
      /\ (forall res m, fetchContent github address = Returns res ->
            json res = Throws m -> fetched = None)
      /\ (forall res doc, fetchContent github address = Returns res ->
            json res = Returns doc -> encoding doc <> Some "base64" ->
            fetched = None)
      /\ (forall res doc c, fetchContent github address = Returns res ->
            json res = Returns doc -> content doc = Some c ->
            JS.includes "000" (decodeBase64 c) = true -> fetched = None))
  /\ (forall o r tb files log,
        fair completion files ->
        fetchBatches decodeBase64 github completion (S (length files)) o r tb
          files 0%nat [] log
        = (Done (omap (fetchFile decodeBase64 github o r tb) files),
           log ++ map (contentAddress o r tb) files)
        /\ (length (omap (fetchFile decodeBase64 github o r tb) files)
            <= length files)%nat)
  /\ (forall body ref tb requested treeRes treeData log,
        located URL_new body ref -> resolves github body ref tb requested ->
        fetchTree github (treeAddress (owner ref) (repo ref) tb) = Returns treeRes ->
        ok treeRes = true -> json treeRes = Returns treeData ->
        let allFiles := eligible (default [] (tree treeData)) in
        let selected := selectFiles routeBudget allFiles in
        let results := omap (fetchFile decodeBase64 github
            (owner ref) (repo ref) tb) selected in
        fair completion selected ->
        exists listing,
          POST URL_new decodeBase64 Response_error github completion (Returns body) log
          = (Done {| responseBody :=
                       Success (owner ref) (repo ref) tb results
                         (Z.of_nat (length allFiles))
                         (Z.of_nat (length results))
                         (Z.of_nat (length allFiles) - Z.of_nat (length results))
                         listing;
                     responseStatus := 200 |},
             (log ++ requested) ++ [treeAddress (owner ref) (repo ref) tb]
               ++ map (contentAddress (owner ref) (repo ref) tb) selected))
  /\ (forall request log res log' o r b files total fetched truncated listing,
        POST URL_new decodeBase64 Response_error github completion
            request log = (Done res, log') ->
        responseBody res = Success o r b files total fetched truncated listing ->
        fetched = Z.of_nat (length files)
        /\ truncated = total - Z.of_nat (length files))
  /\ POST URL_plain base64_plain Response_error_plain threeFiles
      (lastFirst [x_py; y_py; z_py])
       (Returns helloWorld) []
     = (Done {| responseBody :=
                  Success "octocat" "Hello-World" "main"
                    [recordOf x_py "print(1)"; recordOf z_py "print(1)"]
                    3 2 1 [("x.py", Some 10); ("y.py", Some 20); ("z.py", Some 30)];
                responseStatus := 200 |},
        [ "https://api.github.com/repos/octocat/Hello-World/git/trees/main?recursive=1";
          "https://api.github.com/repos/octocat/Hello-World/contents/x.py?ref=main";
          "https://api.github.com/repos/octocat/Hello-World/contents/y.py?ref=main";
          "https://api.github.com/repos/octocat/Hello-World/contents/z.py?ref=main" ]).
Proof.
  split.
  { intros o r tb file address fetched. subst address fetched.
    unfold fetchFile, normalize. repeat split.
    - intros m ->. done.
    - intros res -> ->. done.
    - intros res m -> ->. by destruct (negb (ok res)).
    - intros res doc -> -> Henc. destruct (negb (ok res)); [done|].
      destruct (encoding doc) as [enc|]; [|done].
      destruct (content doc); [|done].
      destruct (String.eqb_spec enc "base64") as [->|_]; [by destruct Henc | done].
    - intros res doc c -> -> -> Hnull. destruct (negb (ok res)); [done|].
      destruct (encoding doc) as [enc|]; [|done].
      destruct (_ && _); [|done]. rewrite Hnull. done. }
  split.
  { intros o r tb files log Hfair. split; [|apply length_omap_le].
    rewrite (fetchBatches_run decodeBase64 github completion o r tb files Hfair)
      by lia.
    rewrite drop_0. done. }
  split.
  { intros body ref tb requested treeRes treeData log Hl Hr H Hok Hj
      allFiles selected results Hfair.
    eexists.
    rewrite (POST_success URL_new decodeBase64 Response_error github completion
               body ref tb requested treeRes treeData log Hl Hr H Hok Hj Hfair).
    unfold bySize. rewrite Array_sort_length. done. }
  split; [apply POST_counts|].
  exact threeFiles_run.
Qed.

(** C6: when the tree has been read and every fetch settles, the records
    of the response are those of the selected files that yielded one, in
    the order of the selection: their paths are a subsequence of the
    selected paths, and two runs that differ only in the order in which
    the fetches settle answer alike. *)
Theorem records_keep_selection_order
    (URL_new : string -> option URL) (decodeBase64 : string -> string)
    (Response_error : Z -> string) (github : HostingService)
        (completion1 completion2 : nat -> list nat)
    body ref tb requested treeRes treeData log :
  located URL_new body ref ->
  resolves github body ref tb requested ->
  fetchTree github (treeAddress (owner ref) (repo ref) tb) = Returns treeRes ->
  ok treeRes = true ->
  json treeRes = Returns treeData ->
  fair completion1 (selectFiles routeBudget (eligible (default [] (tree treeData)))) ->
  fair completion2 (selectFiles routeBudget (eligible (default [] (tree treeData)))) ->
  let selected := selectFiles routeBudget (eligible (default [] (tree treeData))) in
  let fetchOne := fetchFile decodeBase64 github (owner ref) (repo ref) tb in
  exists res log',
    POST URL_new decodeBase64 Response_error github completion1
        (Returns body) log = (Done res, log')
    /\ POST URL_new decodeBase64 Response_error github completion2
        (Returns body) log = (Done res, log')
    /\ filesOf res = omap fetchOne selected
    /\ map file_path (filesOf res) `sublist_of` map path selected
    /\ (forall record,
          record ∈ filesOf res <->
          exists file, file ∈ selected /\ fetchOne file = Some record).
Proof.
  intros Hl Hr H Hok Hj Hfair1 Hfair2 selected fetchOne.
  do 2 eexists.
  rewrite (POST_success URL_new decodeBase64 Response_error github completion1
             body ref tb requested treeRes treeData log Hl Hr H Hok Hj Hfair1).
  rewrite (POST_success URL_new decodeBase64 Response_error github completion2
             body ref tb requested treeRes treeData log Hl Hr H Hok Hj Hfair2).
  split; [reflexivity|]. split; [reflexivity|].
  unfold filesOf. cbn [responseBody].
  split; [done|]. split; [apply omap_fetch_sublist|].
  intros record. apply list_elem_of_omap.
Qed.

Lemma records_keep_selection_order_witness :
  exists res log',
    POST URL_plain base64_plain Response_error_plain threeFiles (inOrder [x_py; y_py; z_py])
      (Returns helloWorld) [] = (Done res, log')
    /\ POST URL_plain base64_plain Response_error_plain threeFiles
        (lastFirst [x_py; y_py; z_py])
         (Returns helloWorld) [] = (Done res, log')
    /\ map file_path (filesOf res) = ["x.py"; "z.py"].
Proof.
  destruct (records_keep_selection_order URL_plain base64_plain
      Response_error_plain threeFiles
              (inOrder [x_py; y_py; z_py]) (lastFirst [x_py; y_py; z_py])
              helloWorld
              {| owner := "octocat"; repo := "Hello-World"; branch := None |}
              "main" []
              {| status := 200; statusText := "OK";
                 json := Returns {| tree := Some [x_py; y_py; z_py] |} |}
              {| tree := Some [x_py; y_py; z_py] |} [])
    as (res & log' & H1 & H2 & Hfiles & _).
  - exists "octocat/Hello-World". repeat split; vm_compute; reflexivity.
  - left. split; vm_compute; reflexivity.
  - reflexivity.
  - reflexivity.
  - reflexivity.
  - change (selectFiles _ _) with [x_py; y_py; z_py]. apply inOrder_fair.
  - change (selectFiles _ _) with [x_py; y_py; z_py]. apply lastFirst_fair.
  - exists res, log'. split; [exact H1|]. split; [exact H2|].
    rewrite Hfiles. vm_compute. reflexivity.
Defined.

(** The decoded text of an empty content has no null character, and yet
    no record is emitted for it. *)
Lemma normalize_empty_content :
  let contentData := {| encoding := Some "base64"; content := Some "" |} in
  JS.includes "000" (base64_plain "") = false
  /\ normalize base64_plain a_py contentData = None.
Proof. split; reflexivity. Qed.

(** C7, amended: for a document with the encoding [base64] and a
    non-empty content, a record is emitted exactly when the decoded text
    has no null character, and the content of the record is the decoded
    text itself; a document whose content is empty or absent yields no
    record. *)
Theorem normalize_decoded_text
    (decodeBase64 : string -> string) file contentData c :
  encoding contentData = Some "base64" ->
  content contentData = Some c ->
  c <> "" ->
  (is_Some (normalize decodeBase64 file contentData)
     <-> JS.includes "000" (decodeBase64 c) = false)
  /\ (forall record,
        normalize decodeBase64 file contentData = Some record ->
        file_content record = decodeBase64 c
        /\ record = recordOf file (decodeBase64 c))
  /\ (forall doc,
        content doc = None \/ content doc = Some "" ->
        normalize decodeBase64 file doc = None).
Proof.
  intros Henc Hc Hne. unfold normalize. rewrite Henc, Hc.
  apply truthy_true in Hne. rewrite Hne. cbn [String.eqb Ascii.eqb andb].
  change (String.eqb "base64" "base64") with true. cbn [andb].
  split; [|split].
  - destruct (JS.includes "000" (decodeBase64 c)).
    + split; [intros [? [=]] | discriminate].
    + split; [done | intros _; eauto].
  - intros record. destruct (JS.includes "000" (decodeBase64 c)); [discriminate|].
    intros [= <-]. done.
  - intros doc [-> | ->]; destruct (encoding doc); try done.
    by rewrite andb_false_r.
Qed.

Lemma normalize_decoded_text_witness :
  normalize base64_plain a_py
    {| encoding := Some "base64"; content := Some "cHJpbnQoMSk=" |}
  = Some (recordOf a_py "print(1)").
Proof.
  pose proof (normalize_decoded_text base64_plain a_py
                {| encoding := Some "base64"; content := Some "cHJpbnQoMSk=" |}
                "cHJpbnQoMSk=" eq_refl eq_refl ltac:(discriminate))
    as (Hiff & Hcontent & _).
  destruct (proj2 Hiff) as [record Hrecord]; [vm_compute; reflexivity|].
  rewrite Hrecord. f_equal. apply (Hcontent record Hrecord).
Defined.

Lemma status_404_not_ok {A} (res : HttpResponse A) : status res = 404 -> ok res = false.
Proof. unfold ok. intros ->. reflexivity. Qed.

Lemma accepted_not_ok s :
  (200 <=? s) && (s <=? 299) = false ->
  Response_accepts s = true <-> 300 <= s <= 599 /\ s <> 304.
Proof.
  intros Hok. unfold Response_accepts, nullBodyStatus. cbn [existsb].
  rewrite !andb_true_iff, negb_true_iff, !orb_false_iff, !Z.leb_le, !Z.eqb_neq.
  apply andb_false_iff in Hok. rewrite !Z.leb_gt in Hok. lia.
Qed.

(** A metadata lookup answered with the status 304 is not answered with
    that status: [Response] refuses it, and the handler answers 500. *)
Lemma upstream_304_answered_500 :
  let repoRes :=
    {| status := 304; statusText := "Not Modified";
       json := Returns {| default_branch := None |} |} in
  fetchRepo notModified "https://api.github.com/repos/octocat/Hello-World"
    = Returns repoRes
  /\ ok repoRes = false
  /\ exists res,
       POST URL_plain base64_plain Response_error_plain notModified (inOrder [])
         (Returns {| repoUrl := Some "octocat/Hello-World"; requestedBranch := None |}) []
       = (Done res, ["https://api.github.com/repos/octocat/Hello-World"])
       /\ responseStatus res = 500
       /\ responseStatus res <> status repoRes.
Proof.
  split; [reflexivity|]. split; [reflexivity|].
  eexists. split; [vm_compute; reflexivity|]. split; [reflexivity | discriminate].
Qed.

(** C8, amended: a request without a locator, or with one that the parser
    rejects (such as [not a url], which the [URL] class rejects), is
    answered with status 400 and nothing is requested from the hosting
    service; a non-success answer to the metadata lookup or to the tree
    lookup whose status [Response] takes with a body, which are the
    statuses 300..599 other than 304, is answered with that answer's own
    status, so with 404 when it is 404; a non-success answer with a status
    that [Response] refuses (304, or one outside 200..599) is answered
    with status 500 and the message of the refusal; an exception, in
    reading the request, in either lookup or in reading their documents,
    is answered with status 500 and its message.  Each of these responses
    is a failure with an error message and no files. *)
Theorem failures_have_status
    (URL_new : string -> option URL) (decodeBase64 : string -> string)
    (Response_error : Z -> string) (github : HostingService)
    (completion : nat -> list nat) :
  URL_new "not a url" = None ->
  let post := POST URL_new decodeBase64 Response_error github completion in
  (forall body log,
      repoUrl body = None \/ repoUrl body = Some "" ->
      post (Returns body) log = (Done (rejected "repoUrl is required" 400), log))
  /\ (forall body url log,
        repoUrl body = Some url -> parseGitHubUrl URL_new url = None ->
        exists e, post (Returns body) log = (Done (rejected e 400), log))
  /\ parseGitHubUrl URL_new "not a url" = None
  /\ (forall b log,
        exists e,
          post (Returns {| repoUrl := Some "not a url"; requestedBranch := b |}) log
          = (Done (rejected e 400), log))
  /\ (forall body ref repoRes log,
        located URL_new body ref ->
        givenBranch body ref = None ->
        fetchRepo github (repoAddress (owner ref) (repo ref)) = Returns repoRes ->
        status repoRes = 404 ->
        exists e,
          post (Returns body) log
          = (Done (rejected e 404), log ++ [repoAddress (owner ref) (repo ref)]))
  /\ (forall body ref repoRes log,
        located URL_new body ref ->
        givenBranch body ref = None ->
        fetchRepo github (repoAddress (owner ref) (repo ref)) = Returns repoRes ->
        ok repoRes = false ->
        Response_accepts (status repoRes) = true ->
        exists e,
          post (Returns body) log
          = (Done (rejected e (status repoRes)),
             log ++ [repoAddress (owner ref) (repo ref)]))
  /\ (forall body ref repoRes log,
        located URL_new body ref ->
        givenBranch body ref = None ->
        fetchRepo github (repoAddress (owner ref) (repo ref)) = Returns repoRes ->
        ok repoRes = false ->
        Response_accepts (status repoRes) = false ->
        post (Returns body) log
        = (Done (rejected (Response_error (status repoRes)) 500),
           log ++ [repoAddress (owner ref) (repo ref)]))
  /\ (forall body ref tb requested treeRes log,
        located URL_new body ref -> resolves github body ref tb requested ->
        fetchTree github (treeAddress (owner ref) (repo ref) tb) = Returns treeRes ->
        status treeRes = 404 ->
        exists e,
          post (Returns body) log
          = (Done (rejected e 404),
             (log ++ requested) ++ [treeAddress (owner ref) (repo ref) tb]))
  /\ (forall body ref tb requested treeRes log,
        located URL_new body ref -> resolves github body ref tb requested ->
        fetchTree github (treeAddress (owner ref) (repo ref) tb) = Returns treeRes ->
        ok treeRes = false ->
        Response_accepts (status treeRes) = true ->
        exists e,
          post (Returns body) log
          = (Done (rejected e (status treeRes)),
             (log ++ requested) ++ [treeAddress (owner ref) (repo ref) tb]))
  /\ (forall body ref tb requested treeRes log,
        located URL_new body ref -> resolves github body ref tb requested ->
        fetchTree github (treeAddress (owner ref) (repo ref) tb) = Returns treeRes ->
        ok treeRes = false ->
        Response_accepts (status treeRes) = false ->
        post (Returns body) log
        = (Done (rejected (Response_error (status treeRes)) 500),
           (log ++ requested) ++ [treeAddress (owner ref) (repo ref) tb]))
  /\ (forall A (res : HttpResponse A),
        ok res = false ->
        Response_accepts (status res) = true
        <-> 300 <= status res <= 599 /\ status res <> 304)
  /\ (forall m log, post (Throws m) log = (Done (rejected m 500), log))
  /\ (forall body ref m log,
        located URL_new body ref ->
        givenBranch body ref = None ->
        fetchRepo github (repoAddress (owner ref) (repo ref)) = Throws m ->
        post (Returns body) log
        = (Done (rejected m 500), log ++ [repoAddress (owner ref) (repo ref)]))
  /\ (forall body ref repoRes m log,
        located URL_new body ref ->
        givenBranch body ref = None ->
        fetchRepo github (repoAddress (owner ref) (repo ref)) = Returns repoRes ->
        ok repoRes = true -> json repoRes = Throws m ->
        post (Returns body) log
        = (Done (rejected m 500), log ++ [repoAddress (owner ref) (repo ref)]))
  /\ (forall body ref tb requested m log,
        located URL_new body ref -> resolves github body ref tb requested ->
        fetchTree github (treeAddress (owner ref) (repo ref) tb) = Throws m ->
        post (Returns body) log
        = (Done (rejected m 500),
           (log ++ requested) ++ [treeAddress (owner ref) (repo ref) tb]))
  /\ (forall body ref tb requested treeRes m log,
        located URL_new body ref -> resolves github body ref tb requested ->
        fetchTree github (treeAddress (owner ref) (repo ref) tb) = Returns treeRes ->
        ok treeRes = true -> json treeRes = Throws m ->
        post (Returns body) log
        = (Done (rejected m 500),
           (log ++ requested) ++ [treeAddress (owner ref) (repo ref) tb]))
  /\ (forall e s,
        responseBody (rejected e s) = Failure e
        /\ responseStatus (rejected e s) = s
        /\ succeeded (rejected e s) = false
        /\ filesOf (rejected e s) = []).
Proof.
  intros Hurl post. subst post.
  assert (parseGitHubUrl URL_new "not a url" = None) as Hparse.
  { unfold parseGitHubUrl.
    change (cleanUrl "not a url") with "not a url".
    change (shortFormat "not a url") with false. cbv iota. rewrite Hurl. done. }
  split; [apply POST_missing|]. split; [apply POST_invalid|].
  split; [exact Hparse|]. split.
  { intros b log. by apply POST_invalid with (url := "not a url"). }
  split.
  { intros body ref repoRes log Hl Hb H Hs.
    destruct (POST_metadata_not_ok URL_new decodeBase64 Response_error github completion
                body ref repoRes log Hl Hb H (status_404_not_ok _ Hs))
      as (e & He); [by rewrite Hs|].
    rewrite Hs in He. eauto. }
  split; [apply POST_metadata_not_ok|]. split; [apply POST_metadata_refused|].
  split.
  { intros body ref tb requested treeRes log Hl Hr H Hs.
    destruct (POST_tree_not_ok URL_new decodeBase64 Response_error github completion
                body ref tb requested treeRes log Hl Hr H (status_404_not_ok _ Hs))
      as (e & He); [by rewrite Hs|].
    rewrite Hs in He. eauto. }
  split; [apply POST_tree_not_ok|]. split; [apply POST_tree_refused|].
  split; [intros A res; apply accepted_not_ok|].
  split; [apply POST_bad_request|].
  split; [apply POST_metadata_throws|]. split; [apply POST_metadata_bad_json|].
  split; [apply POST_tree_throws|]. split; [apply POST_tree_bad_json|].
  intros e s. repeat split.
Qed.

Lemma failures_have_status_witness :
  exists e,
    POST URL_plain base64_plain Response_error_plain threeFiles (inOrder [x_py; y_py; z_py])
      (Returns {| repoUrl := Some "not a url"; requestedBranch := None |}) []
    = (Done (rejected e 400), []).
Proof.
  pose proof (failures_have_status URL_plain base64_plain Response_error_plain threeFiles
                (inOrder [x_py; y_py; z_py]) eq_refl) as (_ & _ & _ & H & _).
  exact (H None []).
Defined.

(** * The locator forms *)

Lemma POST_given_branch URL_new decodeBase64 Response_error github completion
    body ref tb log :
  located URL_new body ref ->
  givenBranch body ref = Some tb ->
  POST URL_new decodeBase64 Response_error github completion (Returns body) log
  = tryCatch (fetchTreeAndContents decodeBase64 Response_error github completion
                (owner ref) (repo ref) tb)
        (fun message => failure Response_error message 500) log.
Proof.
  intros Hl Hb. rewrite (POST_located _ _ _ _ _ _ _ _ Hl). unfold tryCatch, bind.
  rewrite (resolveBranch_given Response_error github _ _ _ _ log Hb). done.
Qed.

(** C4: the parser reads the three locator forms: a locator that cleans
    to [owner/name] in the short format's character class yields that
    owner and name, unchanged, and no branch; a web address on the host
    [github.com] whose path is [/owner/name] yields them with no branch,
    and one whose path is [/owner/name/tree/branch] yields the branch
    too; a branch in the result always comes from such a [tree] segment;
    and a non-empty branch given with the request is the one the handler
    reads, whatever the locator says, the branch of the locator being read
    when the request gives none.  In particular [octocat/Hello-World]
    yields owner [octocat], name [Hello-World] and no branch, and, the
    [URL] class reading [https://github.com/acme/widgets/tree/dev] as host
    [github.com] and path [/acme/widgets/tree/dev], that locator yields
    owner [acme], name [widgets] and branch [dev]. *)
Theorem parseGitHubUrl_forms (URL_new : string -> option URL) :
  URL_new "https://github.com/acme/widgets/tree/dev"
    = Some {| hostname := "github.com"; pathname := "/acme/widgets/tree/dev" |} ->
  parseGitHubUrl URL_new "octocat/Hello-World"
    = Some {| owner := "octocat"; repo := "Hello-World"; branch := None |}
  /\ parseGitHubUrl URL_new "https://github.com/acme/widgets/tree/dev"
    = Some {| owner := "acme"; repo := "widgets"; branch := Some "dev" |}
  /\ (forall url o r,
        cleanUrl url = o +:+ "/" +:+ r ->
        validName o = true -> validName r = true ->
        parseGitHubUrl URL_new url = Some {| owner := o; repo := r; branch := None |})
  /\ (forall url u o r,
        shortFormat (cleanUrl url) = false ->
        URL_new (cleanUrl url) = Some u ->
        hostname u = "github.com" ->
        pathname u = "/" +:+ o +:+ "/" +:+ r ->
        segment o = true -> segment r = true ->
        parseGitHubUrl URL_new url = Some {| owner := o; repo := r; branch := None |})
  /\ (forall url u o r b,
        shortFormat (cleanUrl url) = false ->
        URL_new (cleanUrl url) = Some u ->
        hostname u = "github.com" ->
        pathname u = "/" +:+ o +:+ "/" +:+ r +:+ "/tree/" +:+ b ->
        segment o = true -> segment r = true -> segment b = true ->
        parseGitHubUrl URL_new url = Some {| owner := o; repo := r; branch := Some b |})
  /\ (forall url ref b,
        parseGitHubUrl URL_new url = Some ref -> branch ref = Some b ->
        exists u,
          shortFormat (cleanUrl url) = false /\
          URL_new (cleanUrl url) = Some u /\
          let parts := List.filter JS.truthy (JS.split "/" (pathname u)) in
          parts !! 2%nat = Some "tree" /\ parts !! 3%nat = Some b)
  /\ (forall body ref requested,
        requestedBranch body = Some requested -> JS.truthy requested = true ->
        givenBranch body ref = Some requested)
  /\ (forall body ref,
        requestedBranch body = None \/ requestedBranch body = Some "" ->
        givenBranch body ref = JS.strOr (branch ref) None)
  /\ (forall decodeBase64 Response_error github completion body ref tb log,
        located URL_new body ref ->
        givenBranch body ref = Some tb ->
        POST URL_new decodeBase64 Response_error github completion (Returns body) log
        = tryCatch (fetchTreeAndContents decodeBase64 Response_error github completion
                 (owner ref) (repo ref) tb)
              (fun message => failure Response_error message 500) log).
Proof.
  intros HB. split; [vm_compute; reflexivity|]. split.
  { apply parse_web_tree
      with (u := {| hostname := "github.com"; pathname := "/acme/widgets/tree/dev" |});
      try (vm_compute; reflexivity).
    vm_compute. exact HB. }
  split; [apply parse_short|]. split; [apply parse_web|].
  split; [apply parse_web_tree|]. split; [apply parse_branch_origin|].
  split.
  { intros body ref requested Hr Ht. unfold givenBranch. rewrite Hr. simpl.
    rewrite Ht. simpl. rewrite Ht. done. }
  split.
  { intros body ref [Hr|Hr]; unfold givenBranch; rewrite Hr; done. }
  intros. by apply POST_given_branch.
Qed.

Lemma parseGitHubUrl_forms_witness :
  parseGitHubUrl URL_plain "https://github.com/acme/widgets/tree/dev"
    = Some {| owner := "acme"; repo := "widgets"; branch := Some "dev" |}.
Proof.
  apply (parseGitHubUrl_forms URL_plain). vm_compute. reflexivity.
Defined.

(** * More on the classifier and the language table *)

Lemma split_cons_eq c s : JS.split c (String c s) = "" :: JS.split c s.
Proof. simpl. rewrite Ascii.eqb_refl. done. Qed.

Lemma split_cons_ne c d s :
  d <> c ->
  exists w ws, JS.split c s = w :: ws /\ JS.split c (String d s) = String d w :: ws.
Proof.
  intros Hd. simpl. apply Ascii.eqb_neq in Hd. rewrite Hd.
  assert (JS.split c s <> []) as Hne.
  { destruct s as [|e s]; simpl; [done|].
    destruct (Ascii.eqb e c); [done|]. by destruct (JS.split c s). }
  destruct (JS.split c s) as [|w ws]; [done|]. eauto.
Qed.

Lemma split_not_nil c s : JS.split c s <> [].
Proof.
  destruct s as [|d s]; [done|].
  destruct (Ascii.eqb_spec d c) as [->|Hd].
  - rewrite split_cons_eq. done.
  - destruct (split_cons_ne c d s Hd) as (w & ws & _ & ->). done.
Qed.

Lemma last_cons_not_nil {A} (x d : A) l : l <> [] -> List.last (x :: l) d = List.last l d.
Proof. by destruct l. Qed.

Lemma split_without c s : JS.includes c s = false -> JS.split c s = [s].
Proof.
  induction s as [|d s IH]; simpl; [done|].
  intros [Hd Hs]%orb_false_iff. rewrite Hd, (IH Hs). done.
Qed.

Lemma split_with c s :
  JS.includes c s = true -> exists w x ws, JS.split c s = w :: x :: ws.
Proof.
  induction s as [|d s IH]; simpl; [discriminate|].
  destruct (Ascii.eqb d c) eqn:Hd; simpl.
  - intros _. pose proof (split_not_nil c s) as Hne.
    destruct (JS.split c s) as [|x ws]; [done|]. eauto.
  - intros Hs. destruct (IH Hs) as (w & x & ws & ->). eauto.
Qed.

(** The text after the last separator does not change when a character is
    put in front of a string that has a separator. *)
Lemma last_split_cons c d s :
  JS.includes c s = true ->
  List.last (JS.split c (String d s)) "" = List.last (JS.split c s) "".
Proof.
  intros Hs. destruct (Ascii.eqb_spec d c) as [->|Hd].
  - rewrite split_cons_eq. apply last_cons_not_nil, split_not_nil.
  - destruct (split_with c s Hs) as (w & x & ws & E).
    destruct (split_cons_ne c d s Hd) as (w' & ws' & E1 & ->).
    rewrite E in E1 |- *. simplify_eq. done.
Qed.

Lemma includes_last c e s :
  JS.includes c (List.last (JS.split e s) "") = true -> JS.includes c s = true.
Proof.
  induction s as [|d s IH]; [done|].
  destruct (Ascii.eqb_spec d e) as [->|Hd].
  - rewrite split_cons_eq, last_cons_not_nil by apply split_not_nil.
    intros H. simpl. rewrite (IH H). apply orb_true_r.
  - destruct (split_cons_ne e d s Hd) as (w & ws & E & ->). rewrite E in IH.
    destruct ws as [|x ws].
    + simpl in *. intros [H|H]%orb_prop; [by rewrite H|].
      rewrite (IH H). apply orb_true_r.
    + intros H. simpl. rewrite IH; [apply orb_true_r | exact H].
Qed.

(** When the file name has a dot, the text after the last dot of the path
    is the text after the last dot of the file name. *)
Lemma last_dot_of_fileName path :
  JS.includes "." (List.last (JS.split "/" path) "") = true ->
  List.last (JS.split "." (List.last (JS.split "/" path) "")) ""
  = List.last (JS.split "." path) "".
Proof.
  induction path as [|d s IH]; [discriminate|].
  destruct (JS.includes "/" s) eqn:Hslash.
  - rewrite (last_split_cons "/" d s Hslash). intros H.
    rewrite (IH H). symmetry. apply last_split_cons.
    by apply includes_last in H.
  - destruct (Ascii.eqb_spec d "/") as [->|Hd].
    + rewrite split_cons_eq, (split_without _ _ Hslash). simpl.
      intros H. symmetry. by apply (last_split_cons "." "/" s).
    + destruct (split_cons_ne "/" d s Hd) as (w & ws & E & ->).
      rewrite (split_without _ _ Hslash) in E. simplify_eq. done.
Qed.

Lemma elem_of_CODE_EXTENSIONS ext :
  ext ∈ CODE_EXTENSIONS ->
  (langMap !! ext = None <-> ext ∈ [".cfg"; ".ini"; ".conf"; ".dockerfile"])
  /\ (forall lang, langMap !! ext = Some lang -> JS.truthy lang = true /\ lang <> "Unknown").
Proof.
  unfold CODE_EXTENSIONS. rewrite elem_of_list_to_set. intros H.
  pose (check := fun e : string =>
    match langMap !! e with
    | None => bool_decide (e ∈ [".cfg"; ".ini"; ".conf"; ".dockerfile"])
    | Some lang =>
        negb (bool_decide (e ∈ [".cfg"; ".ini"; ".conf"; ".dockerfile"]))
        && JS.truthy lang && negb (String.eqb lang "Unknown")
    end).
  assert (check ext = true) as Hc.
  { match type of H with
    | _ ∈ ?L => assert (forallb check L = true) as Hall by (vm_compute; reflexivity)
    end.
    rewrite forallb_forall in Hall. apply Hall. by apply list_elem_of_In. }
  unfold check in Hc. destruct (langMap !! ext) as [lang|].
  - apply andb_prop in Hc as [[H1 H2]%andb_prop H3].
    apply negb_true_iff, bool_decide_eq_false in H1.
    apply negb_true_iff, String.eqb_neq in H3.
    split; [split; [discriminate | intros H4; destruct (H1 H4)]|].
    intros ? [= <-]. done.
  - apply bool_decide_eq_true in Hc. split; [done | discriminate].
Qed.

(** X1: The classifier, exactly: a path is kept if and only if none of its
    directory segments is skipped, its file name is not skipped, the file
    name has a dot, and the lower-cased text from its last dot on is a code
    extension.  So a path below a skipped directory is never kept, whatever
    its extension, and neither is a file name without a dot. *)
Theorem classifier_accepts_iff path :
  (shouldIncludeFile path = true <->
     Forall (fun d => d ∉ SKIP_DIRS) (JS.init (JS.split "/" path))
     /\ (List.last (JS.split "/" path) "" ∉ SKIP_FILES)
     /\ (JS.includes "." (List.last (JS.split "/" path) "") = true)
     /\ ("." +:+ JS.toLowerCase
                  (List.last (JS.split "." (List.last (JS.split "/" path) "")) ""))
        ∈ CODE_EXTENSIONS)
  /\ (forall d, d ∈ JS.init (JS.split "/" path) -> d ∈ SKIP_DIRS ->
        shouldIncludeFile path = false)
  /\ (JS.includes "." (List.last (JS.split "/" path) "") = false ->
        shouldIncludeFile path = false).
Proof.
  split; [apply shouldIncludeFile_true_iff|].
  split; [apply shouldIncludeFile_skipped_dir|].
  intros Hdot. apply not_true_is_false.
  intros (_ & _ & H & _)%shouldIncludeFile_true_iff. congruence.
Qed.

(** X2: The label of an eligible path is the entry of the language table for
    the extension that the classifier accepted, and it is [Unknown] exactly
    for the four code extensions that the table lacks. *)
Theorem eligible_label path :
  shouldIncludeFile path = true ->
  let ext := extensionOf (List.last (JS.split "/" path) "") in
  getLanguageFromPath path = JS.strOrElse (langMap !! ext) "Unknown"
  /\ (getLanguageFromPath path = "Unknown"
      <-> ext ∈ [".cfg"; ".ini"; ".conf"; ".dockerfile"]).
Proof.
  intros (_ & _ & Hdot & Hext)%shouldIncludeFile_true_iff ext.
  assert (ext = "." +:+ JS.toLowerCase (List.last (JS.split "." path) "")) as Eext.
  { subst ext. unfold extensionOf. rewrite Hdot, last_dot_of_fileName; done. }
  rewrite last_dot_of_fileName in Hext by done. rewrite <- Eext in Hext.
  unfold getLanguageFromPath. rewrite <- Eext. clearbody ext.
  destruct (elem_of_CODE_EXTENSIONS ext Hext) as [Hnone Hsome].
  unfold JS.strOrElse. destruct (langMap !! ext) as [lang|] eqn:E.
  - destruct (Hsome lang eq_refl) as [-> Hne]. split; [reflexivity|].
    split; [intros H; destruct (Hne H)|].
    intros H. apply Hnone in H. discriminate H.
  - split; [reflexivity|].
    split; [intros _; apply Hnone; reflexivity | reflexivity].
Qed.

Lemma eligible_label_witness :
  getLanguageFromPath "src/app.py" = "Python"
  /\ getLanguageFromPath "deploy/app.ini" = "Unknown".
Proof.
  split.
  - rewrite (proj1 (eligible_label "src/app.py" ltac:(vm_compute; reflexivity))).
    vm_compute. reflexivity.
  - apply (proj2 (proj2 (eligible_label "deploy/app.ini" ltac:(vm_compute; reflexivity)))).
    apply (bool_decide_unpack _). vm_compute. exact I.
Defined.

Lemma lowerUnit_idem c : JS.lowerUnit (JS.lowerUnit c) = JS.lowerUnit c.
Proof. destruct c as [[] [] [] [] [] [] [] []]; vm_compute; reflexivity. Qed.

Lemma lowerUnit_dot c : Ascii.eqb (JS.lowerUnit c) "." = Ascii.eqb c ".".
Proof. destruct c as [[] [] [] [] [] [] [] []]; vm_compute; reflexivity. Qed.

Lemma toLowerCase_idem s : JS.toLowerCase (JS.toLowerCase s) = JS.toLowerCase s.
Proof. induction s as [|c s IH]; simpl; [done|]. by rewrite lowerUnit_idem, IH. Qed.

Lemma split_toLowerCase s :
  JS.split "." (JS.toLowerCase s) = map JS.toLowerCase (JS.split "." s).
Proof.
  induction s as [|c s IH]; [done|].
  cbn [JS.toLowerCase JS.split]. rewrite lowerUnit_dot, IH.
  destruct (Ascii.eqb c "."); [done|].
  pose proof (split_not_nil "." s) as Hne.
  destruct (JS.split "." s); done.
Qed.

Lemma last_map_default {A B} (f : A -> B) l d :
  List.last (map f l) (f d) = f (List.last l d).
Proof. induction l as [|x [|y l] IH]; done. Qed.

Lemma last_toLowerCase l :
  List.last (map JS.toLowerCase l) "" = JS.toLowerCase (List.last l "").
Proof. exact (last_map_default JS.toLowerCase l ""). Qed.

(** X3: The label does not depend on the case of the path: the extension is
    lower-cased before it is looked up. *)
Theorem label_ignores_case path :
  getLanguageFromPath (JS.toLowerCase path) = getLanguageFromPath path.
Proof.
  unfold getLanguageFromPath.
  rewrite split_toLowerCase, last_toLowerCase, toLowerCase_idem. done.
Qed.

(** * More on the locator parser *)

Lemma split_parts_no_sep c s :
  Forall (fun w => JS.every (fun d => negb (Ascii.eqb d c)) w = true) (JS.split c s).
Proof.
  induction s as [|d s IH]; [by repeat constructor|].
  destruct (Ascii.eqb_spec d c) as [->|Hd].
  - rewrite split_cons_eq. by constructor.
  - destruct (split_cons_ne c d s Hd) as (w & ws & E & ->). rewrite E in IH.
    apply Forall_cons in IH as [Hw Hws]. constructor; [|done].
    simpl. rewrite Hw. apply Ascii.eqb_neq in Hd. by rewrite Hd.
Qed.

Lemma filter_truthy_segments s :
  Forall (fun w => segment w = true) (List.filter JS.truthy (JS.split "/" s)).
Proof.
  pose proof (split_parts_no_sep "/" s) as H.
  induction H as [|w ws Hw Hws IH]; simpl; [constructor|].
  destruct (JS.truthy w) eqn:Tw; [|done].
  constructor; [|done]. unfold segment, notSlash. by rewrite Tw, Hw.
Qed.

Lemma validName_segment s : validName s = true -> segment s = true.
Proof.
  unfold validName, segment. intros [-> H]%andb_prop.
  by rewrite (every_weaken _ _ _ nameUnit_notSlash H).
Qed.

Lemma shortFormat_names_inv cleaned :
  shortFormat cleaned = true ->
  exists o r, validName o = true /\ validName r = true
              /\ JS.split "/" cleaned = [o; r].
Proof.
  unfold shortFormat.
  destruct (JS.span nameUnit cleaned) as [o rest] eqn:E1.
  intros [To H]%andb_prop.
  destruct rest as [|c r]; [discriminate|].
  destruct (Ascii.eqb_spec c "/") as [->|Hc].
  2:{ destruct c as [[] [] [] [] [] [] [] []]; try discriminate. by destruct Hc. }
  destruct (JS.span nameUnit r) as [n rest'] eqn:E2.
  apply andb_prop in H as [Tn Hrest]. apply String.eqb_eq in Hrest. subst rest'.
  apply span_spec in E1 as [-> Ho]. apply span_spec in E2 as [-> Hn].
  assert (n +:+ "" = n) as ->.
  { clear. induction n as [|? ? IH]; [done|]. by rewrite append_cons, IH. }
  assert (validName o = true) as Vo by (unfold validName; by rewrite To, Ho).
  assert (validName n = true) as Vn by (unfold validName; by rewrite Tn, Hn).
  exists o, n. split; [done|]. split; [done|].
  change (String "/" n) with ("/" +:+ n). by apply (split_names o n).
Qed.

(** X4: What the parser hands to the handler: the owner and the name are never
    empty and hold no slash, and neither does a branch, so each of them is
    one segment of the addresses that the handler builds. *)
Theorem parse_yields_segments (URL_new : string -> option URL) url ref :
  parseGitHubUrl URL_new url = Some ref ->
  segment (owner ref) = true
  /\ segment (repo ref) = true
  /\ (forall b, branch ref = Some b -> segment b = true).
Proof.
  unfold parseGitHubUrl.
  destruct (shortFormat (cleanUrl url)) eqn:Hs.
  { destruct (shortFormat_names_inv _ Hs) as (o & r & Vo & Vr & ->).
    intros [= <-]. simpl.
    split; [by apply validName_segment|]. split; [by apply validName_segment|].
    discriminate. }
  destruct (URL_new (cleanUrl url)) as [u|]; [|discriminate].
  destruct (negb _); [discriminate|].
  pose proof (filter_truthy_segments (pathname u)) as Hseg.
  destruct (List.filter JS.truthy (JS.split "/" (pathname u))) as [|o [|r rest]];
    [discriminate..|].
  apply Forall_cons in Hseg as [Ho Hseg]. apply Forall_cons in Hseg as [Hr Hseg].
  intros [= <-]. simpl. split; [done|]. split; [done|].
  intros b. destruct rest as [|t [|b' rest]]; [discriminate..|].
  destruct (_ && _); [|discriminate]. intros [= <-].
  apply Forall_cons in Hseg as [_ Hseg]. by apply Forall_cons in Hseg as [Hb _].
Qed.

Lemma parse_yields_segments_witness :
  segment "acme" = true /\ segment "widgets" = true /\ segment "dev" = true.
Proof.
  destruct (parse_yields_segments URL_plain
              "https://github.com/acme/widgets/tree/dev"
              {| owner := "acme"; repo := "widgets"; branch := Some "dev" |}
              ltac:(vm_compute; reflexivity)) as (Ho & Hr & Hb).
  split; [exact Ho|]. split; [exact Hr|]. exact (Hb "dev" eq_refl).
Defined.

(** * More on promises and batches *)

Lemma settled_slots {A} completion (settled : list A) i :
  settle completion settled (replicate (length settled) None) !! i
  = if decide (i ∈ completion) then Some <$> settled !! i
    else replicate (length settled) None !! i.
Proof. apply settle_lookup, length_replicate. Qed.

(** [Promise.all] delivers nothing but what the promises settled to. *)
Lemma Promise_all_inv {A} completion (settled results : list A) :
  Promise_all completion settled = Some results -> results = settled.
Proof.
  unfold Promise_all. intros H%mapM_Some.
  pose proof (Forall2_length _ _ _ H) as Hlen.
  rewrite settle_length, length_replicate in Hlen.
  apply list_eq. intros i.
  destruct (results !! i) as [y|] eqn:Ey.
  - destruct (Forall2_lookup_r _ _ _ _ _ H Ey) as (x & Ex & Hx).
    simpl in Hx. subst x. rewrite settled_slots in Ex.
    destruct (decide (i ∈ completion)).
    + destruct (settled !! i); by simplify_eq/=.
    + apply lookup_replicate in Ex as [[=] _].
  - apply lookup_ge_None in Ey. symmetry. apply lookup_ge_None. lia.
Qed.

(** It delivers nothing as long as one promise has not settled. *)
Lemma Promise_all_waits {A} completion (settled : list A) j :
  (j < length settled)%nat -> j ∉ completion ->
  Promise_all completion settled = None.
Proof.
  intros Hj Hout. unfold Promise_all. apply mapM_None, Exists_exists.
  exists None. split; [|done]. apply list_elem_of_lookup. exists j.
  rewrite settled_slots, decide_False by done.
  by apply lookup_replicate_2.
Qed.

Section MoreBatchFacts.

Variable decodeBase64 : string -> string.
Variable github : HostingService.
Variable completion : nat -> list nat.
Variables owner repo targetBranch : string.
Variable filesToFetch : list TreeItem.

Local Abbreviation fetchOne := (fetchFile decodeBase64 github owner repo targetBranch).
Local Abbreviation address := (contentAddress owner repo targetBranch).
Local Abbreviation batches :=
  (fun fuel => fetchBatches decodeBase64 github completion fuel owner repo
                 targetBranch filesToFetch).

(** Whenever the loop ends, it has requested every file from [i] on and
    delivers the records of those that yielded one, in their order. *)
Lemma fetchBatches_done fuel : forall i results log rs log',
  batches fuel i results log = (Done rs, log') ->
  rs = results ++ omap fetchOne (drop i filesToFetch)
  /\ log' = log ++ map address (drop i filesToFetch).
Proof.
  induction fuel as [|fuel IH]; intros i results log rs log'; [discriminate|].
  cbn [fetchBatches]. destruct (Nat.ltb_spec i (length filesToFetch)) as [Hi|Hi].
  - unfold bind, awaitAll.
    destruct (Promise_all _ _) as [batchResults|] eqn:E; [|discriminate].
    apply Promise_all_inv in E as ->. intros [-> ->]%IH.
    rewrite omap_id_map, <- !app_assoc, <- omap_app, <- map_app.
    rewrite <- drop_drop, take_drop. done.
  - intros [= <- <-]. rewrite drop_ge by lia. simpl. by rewrite !app_nil_r.
Qed.

(** Whatever happens, the loop requests the files in their order, and none
    twice. *)
Lemma fetchBatches_log fuel : forall i results log,
  exists k, snd (batches fuel i results log)
            = log ++ map address (take k (drop i filesToFetch)).
Proof.
  induction fuel as [|fuel IH]; intros i results log.
  { exists 0%nat. simpl. by rewrite app_nil_r. }
  cbn [fetchBatches]. destruct (Nat.ltb_spec i (length filesToFetch)) as [Hi|Hi].
  - unfold bind, awaitAll.
    destruct (Promise_all _ _) as [batchResults|] eqn:E.
    + destruct (IH (i + BATCH_SIZE)%nat (results ++ omap id batchResults)
                  (log ++ map address (take BATCH_SIZE (drop i filesToFetch))))
        as [k ->].
      exists (BATCH_SIZE + k)%nat.
      rewrite <- app_assoc, <- map_app, <- drop_drop, take_take_drop. done.
    + exists BATCH_SIZE. done.
  - exists 0%nat. simpl. by rewrite app_nil_r.
Qed.

(** The batches go one after another: when the batches before the one at
    [i + k * BATCH_SIZE] have settled and that one has a fetch that has not,
    the loop waits, having requested the files up to the end of that batch
    and none beyond. *)
Lemma fetchBatches_waits k : forall fuel i j results log,
  (k < fuel)%nat ->
  (forall m, (m < k)%nat ->
     completion (i + m * BATCH_SIZE)
     ≡ₚ seq 0 (length (take BATCH_SIZE (drop (i + m * BATCH_SIZE) filesToFetch)))) ->
  (j < length (take BATCH_SIZE (drop (i + k * BATCH_SIZE) filesToFetch)))%nat ->
  j ∉ completion (i + k * BATCH_SIZE) ->
  batches fuel i results log
  = (Pending,
     log ++ map address (take ((k + 1) * BATCH_SIZE) (drop i filesToFetch))).
Proof.
  induction k as [|k IH]; intros fuel i j results log Hfuel Hfair Hj Hout;
    (destruct fuel as [|fuel]; [lia|]); cbn [fetchBatches].
  - rewrite Nat.add_0_r in Hj, Hout.
    assert (i < length filesToFetch)%nat as Hi.
    { rewrite length_take, length_drop in Hj. lia. }
    apply Nat.ltb_lt in Hi. rewrite Hi. unfold bind, awaitAll.
    rewrite (Promise_all_waits _ _ j) by (rewrite ?length_map; done).
    reflexivity.
  - assert (i < length filesToFetch)%nat as Hi.
    { rewrite length_take, length_drop in Hj. lia. }
    apply Nat.ltb_lt in Hi. rewrite Hi. unfold bind, awaitAll.
    pose proof (Hfair 0%nat ltac:(lia)) as H0. rewrite Nat.add_0_r in H0.
    rewrite Promise_all_settled by (rewrite length_map; exact H0).
    rewrite (IH fuel (i + BATCH_SIZE)%nat j).
    + rewrite <- app_assoc, <- map_app, <- drop_drop, take_take_drop.
      reflexivity.
    + lia.
    + intros m Hm. specialize (Hfair (S m) ltac:(lia)).
      replace (i + BATCH_SIZE + m * BATCH_SIZE)%nat with (i + S m * BATCH_SIZE)%nat
        by (unfold BATCH_SIZE; lia). exact Hfair.
    + replace (i + BATCH_SIZE + k * BATCH_SIZE)%nat with (i + S k * BATCH_SIZE)%nat
        by (unfold BATCH_SIZE; lia). exact Hj.
    + replace (i + BATCH_SIZE + k * BATCH_SIZE)%nat with (i + S k * BATCH_SIZE)%nat
        by (unfold BATCH_SIZE; lia). exact Hout.
Qed.

End MoreBatchFacts.

(** * More on the handler *)

Lemma not_ok_not_200 {A} (res : HttpResponse A) : ok res = false -> status res <> 200.
Proof. unfold ok. intros H E. rewrite E in H. discriminate H. Qed.

Section MorePostFacts.

Variable URL_new : string -> option URL.
Variable decodeBase64 : string -> string.
Variable Response_error : Z -> string.
Variable github : HostingService.
Variable completion : nat -> list nat.

Local Abbreviation post := (POST URL_new decodeBase64 Response_error github completion).
Local Abbreviation stage1 := (resolveBranch Response_error github).
Local Abbreviation stage23 := (fetchTreeAndContents decodeBase64 Response_error
    github completion).

Lemma stage1_done o r branch log resolved log' :
  stage1 o r branch log = (Done resolved, log') ->
  match resolved with
  | inl tb => True
  | inr response => exists e s, response = rejected e s /\ s <> 200
  end.
Proof.
  unfold resolveBranch, bind at 1, fetch, await, ret.
  destruct (JS.strOr branch None); [by intros [= <- _]|].
  destruct (fetchRepo github _) as [repoRes|]; [|discriminate].
  destruct (ok repoRes) eqn:Hok; cbn [negb]; unfold bind.
  - destruct (json repoRes); [by intros [= <- _] | discriminate].
  - destruct (Z.eqb_spec (status repoRes) 404) as [E|_]; failure_split;
      try discriminate; intros [= <- _].
    + eexists _, 404. split; [reflexivity | lia].
    + eexists _, (status repoRes). split; [reflexivity | by apply not_ok_not_200].
Qed.

Lemma stage23_done o r tb log res log' :
  stage23 o r tb log = (Done res, log') ->
  (exists e s, res = rejected e s /\ s <> 200)
  \/ (exists treeData,
        res = successResponse o r tb (eligible (default [] (tree treeData)))
                (omap (fetchFile decodeBase64 github o r tb)
                   (selectFiles routeBudget (eligible (default [] (tree treeData)))))).
Proof.
  unfold fetchTreeAndContents, bind at 1, fetch, await at 1.
  destruct (fetchTree github _) as [treeRes|]; [|discriminate].
  destruct (ok treeRes) eqn:Hok; cbn [negb].
  2:{ failure_split; [|discriminate].
      intros [= <- _]. left. eexists _, _. split; [reflexivity|].
      by apply not_ok_not_200. }
  unfold bind at 1, await at 1. destruct (json treeRes) as [treeData|]; [|discriminate].
  unfold bind.
  destruct (fetchBatches _ _ _ _ _ _ _ _ _ _ _) as [[results| |] log2] eqn:E;
    [|discriminate..].
  rewrite respond_success.
  intros [= <- _]. right. exists treeData.
  apply fetchBatches_done in E as [-> _]. rewrite drop_0. reflexivity.
Qed.

(** Every response of the handler is a failure with another status than
    200, or the success response for the records of the selected files. *)
Lemma POST_done request log res log' :
  post request log = (Done res, log') ->
  (exists e s, res = rejected e s /\ s <> 200)
  \/ (exists o r tb tree,
        res = successResponse o r tb (eligible tree)
                (omap (fetchFile decodeBase64 github o r tb)
                   (selectFiles routeBudget (eligible tree)))).
Proof.
  unfold POST, tryCatch, bind at 1, await. destruct request as [body|m].
  2:{ rewrite failure_accepted by reflexivity.
      intros [= <- _]. left. eexists _, 500. split; [reflexivity | lia]. }
  destruct (repoUrl body) as [url|].
  2:{ rewrite failure_accepted by reflexivity.
      intros [= <- _]. left. eexists _, 400. split; [reflexivity | lia]. }
  destruct (negb (JS.truthy url)).
  { rewrite failure_accepted by reflexivity.
    intros [= <- _]. left. eexists _, 400. split; [reflexivity | lia]. }
  destruct (parseGitHubUrl URL_new url) as [parsed|].
  2:{ rewrite failure_accepted by reflexivity.
      intros [= <- _]. left. eexists _, 400. split; [reflexivity | lia]. }
  unfold bind.
  destruct (resolveBranch _ _ _ _ _ _) as [[[tb|response]| |] log1] eqn:E1.
  - destruct (fetchTreeAndContents _ _ _ _ _ _ _ _) as [[res'| |] log2] eqn:E2.
    + intros [= <- _]. apply stage23_done in E2 as [H|[treeData H]]; [by left|].
      right. eauto.
    + rewrite failure_accepted by reflexivity.
      intros [= <- _]. left. eexists _, 500. split; [reflexivity | lia].
    + discriminate.
  - intros [= <- _]. apply stage1_done in E1. by left.
  - rewrite failure_accepted by reflexivity.
    intros [= <- _]. left. eexists _, 500. split; [reflexivity | lia].
  - discriminate.
Qed.

Lemma POST_never_raises request log m log' : post request log <> (Raise m, log').
Proof.
  unfold POST, tryCatch.
  destruct (bind _ _ log) as [[res|e|] log1];
    rewrite ?failure_accepted by reflexivity; discriminate.
Qed.

Lemma stage1_log o r branch log :
  exists added, snd (stage1 o r branch log) = log ++ added /\ (length added <= 1)%nat.
Proof.
  unfold resolveBranch, bind at 1, fetch, await, ret.
  destruct (JS.strOr branch None).
  { exists []. simpl. split; [by rewrite app_nil_r | lia]. }
  exists [repoAddress o r]. split; [|simpl; lia].
  destruct (fetchRepo github _) as [repoRes|]; [|done].
  unfold bind.
  destruct (negb (ok repoRes));
    [destruct (status repoRes =? 404); by failure_split|].
  by destruct (json repoRes).
Qed.

Lemma stage23_log o r tb log :
  exists added, snd (stage23 o r tb log) = log ++ added /\ (length added <= 51)%nat.
Proof.
  unfold fetchTreeAndContents, bind at 1, fetch, await at 1.
  destruct (fetchTree github _) as [treeRes|].
  2:{ exists [treeAddress o r tb]. simpl. split; [done | lia]. }
  destruct (negb (ok treeRes)).
  { exists [treeAddress o r tb]. failure_split; simpl; (split; [done | lia]). }
  unfold bind at 1, await at 1. destruct (json treeRes) as [treeData|].
  2:{ exists [treeAddress o r tb]. simpl. split; [done | lia]. }
  set (selected := fst (collect routeBudget _ [] 0)).
  assert (length selected <= 50)%nat as Hlen.
  { destruct (collect_budget routeBudget
                (Array_sort bySize (eligible (default [] (tree treeData)))) [] 0)
      as (_ & Hn & _); try done.
    fold selected in Hn. unfold routeBudget, MAX_FILES in Hn. simpl in Hn. lia. }
  destruct (fetchBatches_log decodeBase64 github completion o r tb selected
              (S (length selected)) 0 [] (log ++ [treeAddress o r tb])) as [k Hk].
  unfold bind.
  destruct (fetchBatches _ _ _ _ _ _ _ _ _ _ _) as [[results| |] log2] eqn:E;
    rewrite ?respond_success;
    simpl in Hk |- *; subst log2; rewrite <- app_assoc;
    (eexists; split; [reflexivity|]);
    rewrite length_app, length_map, length_take, drop_0; simpl; lia.
Qed.

Lemma POST_log request log :
  exists added, snd (post request log) = log ++ added /\ (length added <= 52)%nat.
Proof.
  assert (exists added, log = log ++ added /\ (length added <= 52)%nat) as Hnone.
  { exists []. rewrite app_nil_r. split; [done | simpl; lia]. }
  unfold POST, tryCatch, bind at 1, await.
  destruct request as [body|m]; [|by rewrite failure_accepted].
  destruct (repoUrl body) as [url|]; [|by rewrite failure_accepted].
  destruct (negb (JS.truthy url)); [by rewrite failure_accepted|].
  destruct (parseGitHubUrl URL_new url) as [parsed|]; [|by rewrite failure_accepted].
  unfold bind.
  destruct (stage1_log (owner parsed) (repo parsed)
              (JS.strOr (requestedBranch body) (branch parsed)) log)
    as (added1 & E1 & L1).
  destruct (resolveBranch _ _ _ _ _ _) as [[[tb|response]| |] log1];
    simpl in E1; subst log1; rewrite ?failure_accepted by reflexivity;
    try (exists added1; split; [done | lia]).
  destruct (stage23_log (owner parsed) (repo parsed) tb (log ++ added1))
    as (added2 & E2 & L2).
  destruct (fetchTreeAndContents _ _ _ _ _ _ _ _) as [[res'| |] log2];
    simpl in E2; subst log2; rewrite ?failure_accepted by reflexivity;
    rewrite <- app_assoc;
    (eexists; split; [reflexivity|]); rewrite length_app; lia.
Qed.

End MorePostFacts.

(** X5: The handler never lets an exception out, and in each of its responses
    the success flag is set exactly when the status is 200; a response that
    is not a success carries no files. *)
Theorem handler_outcome
    (URL_new : string -> option URL) (decodeBase64 : string -> string)
    (Response_error : Z -> string) (github : HostingService)
    (completion : nat -> list nat) request log :
  (forall m log',
      POST URL_new decodeBase64 Response_error github completion
          request log <> (Raise m, log'))
  /\ (forall res log',
        POST URL_new decodeBase64 Response_error github completion
            request log = (Done res, log') ->
        (succeeded res = true <-> responseStatus res = 200)
        /\ (succeeded res = false -> filesOf res = [])).
Proof.
  split; [apply POST_never_raises|].
  intros res log' [(e & s & -> & Hs) | (o & r & tb & tree & ->)]%POST_done.
  - split; [|done]. split; [discriminate | intros H; destruct (Hs H)].
  - split; [done | discriminate].
Qed.

(** X7: In every run, whatever the hosting service answers and whether or not
    the fetches settle, the handler sends at most 52 requests: one metadata
    lookup, one tree lookup and one fetch for each of at most 50 files. *)
Theorem requests_bounded
    (URL_new : string -> option URL) (decodeBase64 : string -> string)
    (Response_error : Z -> string) (github : HostingService)
    (completion : nat -> list nat) request log :
  exists added,
    snd (POST URL_new decodeBase64 Response_error github completion
        request log) = log ++ added
    /\ (length added <= 52)%nat.
Proof. apply POST_log. Qed.

(** X8: The batches go one after another: if the batches before batch [k] have
    settled and a fetch of batch [k] has not, the loop is waiting, and it
    has requested the files of the batches up to [k] and no file beyond. *)
Theorem batches_go_one_after_another
    (decodeBase64 : string -> string) (github : HostingService)
    (completion : nat -> list nat) o r tb filesToFetch k j log :
  (forall m, (m < k)%nat ->
     completion (m * BATCH_SIZE)%nat
     ≡ₚ seq 0 (length (take BATCH_SIZE (drop (m * BATCH_SIZE)%nat filesToFetch)))) ->
  (j < length (take BATCH_SIZE (drop (k * BATCH_SIZE)%nat filesToFetch)))%nat ->
  j ∉ completion (k * BATCH_SIZE)%nat ->
  fetchBatches decodeBase64 github completion (S (length filesToFetch)) o r tb
    filesToFetch 0%nat [] log
  = (Pending,
     log ++ map (contentAddress o r tb) (take ((k + 1) * BATCH_SIZE)%nat filesToFetch)).
Proof.
  intros Hfair Hj Hout.
  rewrite (fetchBatches_waits decodeBase64 github completion o r tb filesToFetch
             k (S (length filesToFetch)) 0 j [] log); [by rewrite drop_0| | | |].
  - rewrite length_take, length_drop in Hj. unfold BATCH_SIZE in Hj. lia.
  - intros m Hm. rewrite Nat.add_0_l. by apply Hfair.
  - by rewrite Nat.add_0_l.
  - by rewrite Nat.add_0_l.
Qed.

Lemma batches_go_one_after_another_witness :
  fetchBatches base64_plain threeFiles (fun _ => [0; 1]%nat) 4 "octocat" "Hello-World"
    "main" [x_py; y_py; z_py] 0%nat [] []
  = (Pending,
     [ "https://api.github.com/repos/octocat/Hello-World/contents/x.py?ref=main";
       "https://api.github.com/repos/octocat/Hello-World/contents/y.py?ref=main";
       "https://api.github.com/repos/octocat/Hello-World/contents/z.py?ref=main" ]).
Proof.
  apply (batches_go_one_after_another base64_plain threeFiles (fun _ => [0; 1]%nat)
           "octocat" "Hello-World" "main" [x_py; y_py; z_py] 0%nat 2%nat []).
  - intros m Hm. lia.
  - simpl. lia.
  - intros H. vm_compute in H. by repeat (apply elem_of_cons in H as [H|H]; [discriminate|]);
      apply elem_of_nil in H.
Defined.

(** ** The success response *)

Lemma sublist_List_filter {A} (f : A -> bool) l : List.filter f l `sublist_of` l.
Proof.
  induction l as [|x l IH]; simpl; [done|].
  destruct (f x); by constructor.
Qed.

Lemma sublist_List_map {A B} (f : A -> B) l1 l2 :
  l1 `sublist_of` l2 -> map f l1 `sublist_of` map f l2.
Proof. induction 1; simpl; by constructor. Qed.

Lemma selectFiles_sublist b allFiles :
  selectFiles b allFiles `sublist_of` Array_sort bySize allFiles.
Proof.
  destruct (selectFiles_prefix b allFiles) as (rest & E & _).
  etrans; [|apply (sublist_List_filter (fits b))]. rewrite E.
  by apply sublist_inserts_r.
Qed.

Lemma sorted_eligible tree :
  Forall (fun f => shouldIncludeFile (path f) = true)
    (Array_sort bySize (eligible tree)).
Proof.
  rewrite (Array_sort_perm sizeOf (eligible tree)).
  unfold eligible. apply Forall_forall. intros f Hf.
  apply list_elem_of_In, filter_In in Hf as [_ Hf].
  by apply andb_prop in Hf as [_ Hf].
Qed.

Lemma listing_sorted allFiles :
  StronglySorted (fun a b : string * option Z => JS.numOr (snd a) 0 <= JS.numOr (snd b) 0)
    (map (fun f => (path f, size f)) (Array_sort bySize allFiles)).
Proof.
  pose proof (Array_sort_sorted sizeOf allFiles) as H.
  change (Array_sort _ allFiles) with (Array_sort bySize allFiles) in H.
  induction H as [|f l Hl IH Hf]; simpl; constructor; [done|].
  clear -Hf. induction Hf; simpl; by constructor.
Qed.

Lemma fetchFile_record decodeBase64 github o r tb file record :
  fetchFile decodeBase64 github o r tb file = Some record ->
  record = recordOf file (file_content record)
  /\ JS.includes "000" (file_content record) = false.
Proof.
  unfold fetchFile, normalize.
  repeat (case_match; try discriminate). by intros [= <-].
Qed.

Lemma success_response_invariants_aux
    (URL_new : string -> option URL) (decodeBase64 : string -> string)
    (Response_error : Z -> string) (github : HostingService) (completion : nat -> list nat)
    request log res log' o r b files total fetched truncated listing :
  POST URL_new decodeBase64 Response_error github completion
      request log = (Done res, log') ->
  responseBody res = Success o r b files total fetched truncated listing ->
  responseStatus res = 200
  /\ fetched = Z.of_nat (length files)
  /\ fetched <= 50
  /\ fetched <= total.
Proof.
  intros [(e & s & -> & _) | (o' & r' & tb & tree & ->)]%POST_done; [discriminate|].
  unfold successResponse. cbn [responseBody responseStatus].
  intros [= <- <- <- <- <- <- <- <-].
  pose proof (sublist_length _ _ (selectFiles_sublist routeBudget (eligible tree))) as Hlen.
  pose proof (length_omap_le (fetchFile decodeBase64 github o' r' tb)
                (selectFiles routeBudget (eligible tree))) as Hrec.
  destruct (collect_budget routeBudget (Array_sort bySize (eligible tree)) [] 0)
    as (_ & Hn & _); try done.
  change (fst (collect routeBudget (Array_sort bySize (eligible tree)) [] 0))
    with (selectFiles routeBudget (eligible tree)) in Hn.
  change (maxFiles routeBudget) with 50 in Hn.
  split; [done|]. split; [done|]. split; lia.
Qed.

(** X6: What a client can rely on in every success response: at most 50
    records, never more than the total count; a truncated count that is not
    negative; a listing of as many entries as the total count, sorted by
    size, all of whose paths are eligible; and records whose paths run
    through the listing in its order, whose contents hold no null character
    and whose labels are those of their paths. *)
Theorem success_response_invariants
    (URL_new : string -> option URL) (decodeBase64 : string -> string)
    (Response_error : Z -> string) (github : HostingService) (completion : nat -> list nat)
    request log res log' o r b files total fetched truncated listing :
  POST URL_new decodeBase64 Response_error github completion
      request log = (Done res, log') ->
  responseBody res = Success o r b files total fetched truncated listing ->
  fetched = Z.of_nat (length files)
  /\ fetched <= 50
  /\ fetched <= total
  /\ 0 <= truncated
  /\ total = Z.of_nat (length listing)
  /\ Forall (fun entry => shouldIncludeFile (fst entry) = true) listing
  /\ StronglySorted
       (fun a b : string * option Z => JS.numOr (snd a) 0 <= JS.numOr (snd b) 0)
       listing
  /\ map file_path files `sublist_of` map fst listing
  /\ Forall (fun record =>
               JS.includes "000" (file_content record) = false
               /\ file_language record = getLanguageFromPath (file_path record))
            files.
Proof.
  intros [(e & s & -> & _) | (o' & r' & tb & tree & ->)]%POST_done; [discriminate|].
  unfold successResponse. cbn [responseBody].
  intros [= <- <- <- <- <- <- <- <-].
  set (allFiles := eligible tree).
  set (fetchOne := fetchFile decodeBase64 github o' r' tb).
  pose proof (selectFiles_sublist routeBudget allFiles) as Hsub.
  pose proof (sublist_length _ _ Hsub) as Hlen.
  pose proof (length_omap_le fetchOne (selectFiles routeBudget allFiles)) as Hrec.
  destruct (collect_budget routeBudget (Array_sort bySize allFiles) [] 0)
    as (_ & Hn & _); try done.
  change (fst (collect routeBudget (Array_sort bySize allFiles) [] 0))
    with (selectFiles routeBudget allFiles) in Hn.
  change (maxFiles routeBudget) with 50 in Hn.
  split; [done|]. split; [lia|]. split; [lia|]. split; [lia|].
  split; [by rewrite length_map|]. split.
  { apply Forall_forall. intros entry Hentry.
    apply list_elem_of_In, in_map_iff in Hentry as (f & <- & Hf).
    pose proof (sorted_eligible tree) as Hall. rewrite Forall_forall in Hall.
    apply Hall. by apply list_elem_of_In. }
  split; [apply listing_sorted|]. split.
  { rewrite map_map. simpl.
    etrans; [apply omap_fetch_sublist|]. by apply sublist_List_map. }
  apply Forall_forall. intros record Hrecord.
  apply list_elem_of_omap in Hrecord as (file & _ & Hfile).
  apply fetchFile_record in Hfile as [-> Hnull]. done.
Qed.

Lemma success_response_invariants_witness :
  map file_path [recordOf x_py "print(1)"; recordOf z_py "print(1)"]
    `sublist_of` map fst [("x.py", Some 10); ("y.py", Some 20); ("z.py", Some 30)].
Proof.
  pose proof (success_response_invariants URL_plain base64_plain
      Response_error_plain threeFiles
                (lastFirst [x_py; y_py; z_py]) (Returns helloWorld) []
                _ _ _ _ _ _ _ _ _ _ threeFiles_run eq_refl)
    as (_ & _ & _ & _ & _ & _ & _ & H & _).
  exact H.
Defined.

(** * The callers: the panel and the page *)

Lemma trimStart_idem s : JS.trimStart (JS.trimStart s) = JS.trimStart s.
Proof.
  induction s as [|c s IH]; simpl; [done|].
  destruct (JS.isWhiteSpace c) eqn:Hc; [done|]. simpl. by rewrite Hc.
Qed.

Lemma trimEnd_cons c s :
  JS.trimEnd (String c s)
  = match JS.trimEnd s with
    | EmptyString => if JS.isWhiteSpace c then EmptyString else String c EmptyString
    | r => String c r
    end.
Proof. reflexivity. Qed.

Lemma trimEnd_idem s : JS.trimEnd (JS.trimEnd s) = JS.trimEnd s.
Proof.
  induction s as [|c s IH]; [done|].
  rewrite trimEnd_cons. destruct (JS.trimEnd s) as [|d t] eqn:E.
  - destruct (JS.isWhiteSpace c) eqn:Hc; [done|].
    rewrite trimEnd_cons. simpl. by rewrite Hc.
  - rewrite trimEnd_cons, IH. done.
Qed.

Lemma trimStart_trimEnd t :
  JS.trimStart t = t -> JS.trimStart (JS.trimEnd t) = JS.trimEnd t.
Proof.
  destruct t as [|c r]; [done|]. intros E.
  assert (JS.isWhiteSpace c = false) as Hc.
  { destruct (JS.isWhiteSpace c) eqn:Hc; [|done]. exfalso.
    simpl in E. rewrite Hc in E.
    destruct (trimStart_shrinks r) as [E'|E']; rewrite E in E'; [|simpl in E'; lia].
    apply (f_equal String.length) in E'. simpl in E'. lia. }
  rewrite trimEnd_cons. destruct (JS.trimEnd r); rewrite ?Hc; simpl; by rewrite Hc.
Qed.

Lemma trim_idem s : JS.trim (JS.trim s) = JS.trim s.
Proof.
  unfold JS.trim.
  rewrite (trimStart_trimEnd (JS.trimStart s)) by apply trimStart_idem.
  apply trimEnd_idem.
Qed.

(** X9: The panel trims the locator before it sends it and the parser trims it
    again: the parser reads the sent locator as it reads the typed one. *)
Theorem parse_of_trimmed (URL_new : string -> option URL) url :
  JS.trim (JS.trim url) = JS.trim url
  /\ parseGitHubUrl URL_new (JS.trim url) = parseGitHubUrl URL_new url.
Proof.
  split; [apply trim_idem|]. apply parse_cleaned. unfold cleanUrl.
  by rewrite trim_idem.
Qed.

(** ** The selection of the panel *)

#[local] Set Warnings "-clear-no-such-hyp".

Lemma State_eq (a b : RepoInput.State) :
  RepoInput.repoUrl a = RepoInput.repoUrl b ->
  RepoInput.branch a = RepoInput.branch b ->
  RepoInput.fetching a = RepoInput.fetching b ->
  RepoInput.fetchError a = RepoInput.fetchError b ->
  RepoInput.fetchedFiles a = RepoInput.fetchedFiles b ->
  RepoInput.repoInfo a = RepoInput.repoInfo b ->
  RepoInput.selectedPaths a = RepoInput.selectedPaths b ->
  RepoInput.treeItems a = RepoInput.treeItems b ->
  RepoInput.totalInRepo a = RepoInput.totalInRepo b ->
  a = b.
Proof. destruct a, b; simpl; intros; by subst. Qed.

(** X10: Ticking a check box twice leaves the panel as it was; one tick changes
    the selection of that path and of no other. *)
Theorem toggle_twice path st :
  RepoInput.handleToggleFile path (RepoInput.handleToggleFile path st) = st
  /\ (path ∈ RepoInput.selectedPaths (RepoInput.handleToggleFile path st)
      <-> path ∉ RepoInput.selectedPaths st)
  /\ (forall other, other <> path ->
        other ∈ RepoInput.selectedPaths (RepoInput.handleToggleFile path st)
        <-> other ∈ RepoInput.selectedPaths st).
Proof.
  unfold RepoInput.handleToggleFile, RepoInput.setSelectedPaths. cbn.
  split; [|split].
  - apply State_eq; cbn; try done.
    destruct (decide (path ∈ RepoInput.selectedPaths st)) as [Hin|Hout].
    + rewrite (bool_decide_eq_true_2 _ Hin).
      rewrite bool_decide_eq_false_2 by set_solver.
      apply set_eq. intros x. destruct (decide (x = path)); set_solver.
    + rewrite (bool_decide_eq_false_2 _ Hout).
      rewrite bool_decide_eq_true_2 by set_solver.
      set_solver.
  - case_bool_decide; set_solver.
  - intros other Hne. case_bool_decide; set_solver.
Qed.

Lemma filter_all {A} (f : A -> bool) l :
  Forall (fun x => f x = true) l -> List.filter f l = l.
Proof. induction 1 as [|x l Hx _ IH]; simpl; [done|]. by rewrite Hx, IH. Qed.

Lemma filter_not_nil {A} (f : A -> bool) l x :
  x ∈ l -> f x = true -> List.filter f l <> [].
Proof.
  intros Hx Hf E. apply list_elem_of_In in Hx.
  assert (In x (List.filter f l)) as H by (apply filter_In; done).
  rewrite E in H. destruct H.
Qed.

(** X11: What [handleSubmit] passes on: nothing without a repository or without
    a selection; otherwise the fetched files whose paths are selected, in
    their order, so all of them after [Select All], and nothing after
    [Deselect All]. *)
Theorem submit_selection st :
  (forall sel info,
      RepoInput.handleSubmit st = Some (sel, info) ->
      RepoInput.repoInfo st = Some info
      /\ RepoInput.selectedPaths st <> ∅
      /\ sel `sublist_of` RepoInput.fetchedFiles st
      /\ (forall f, f ∈ sel <->
            f ∈ RepoInput.fetchedFiles st
            /\ file_path f ∈ RepoInput.selectedPaths st))
  /\ RepoInput.handleSubmit (RepoInput.handleDeselectAll st) = None
  /\ (forall info,
        RepoInput.repoInfo st = Some info -> RepoInput.fetchedFiles st <> [] ->
        RepoInput.handleSubmit (RepoInput.handleSelectAll st)
        = Some (RepoInput.fetchedFiles st, info))
  /\ (RepoInput.fetchedFiles st = [] ->
      RepoInput.handleSubmit (RepoInput.handleSelectAll st) = None).
Proof.
  split; [|split; [|split]].
  - intros sel info. unfold RepoInput.handleSubmit.
    destruct (RepoInput.repoInfo st) as [info'|]; [|discriminate].
    destruct (Nat.eqb_spec (base.size (RepoInput.selectedPaths st)) 0) as [|Hsize];
      [discriminate|].
    intros [= <- <-]. split; [done|]. split.
    { intros E. apply Hsize. rewrite E. apply size_empty. }
    split; [apply sublist_List_filter|].
    intros f. rewrite !list_elem_of_In, filter_In, bool_decide_eq_true. done.
  - unfold RepoInput.handleSubmit, RepoInput.handleDeselectAll. cbn.
    destruct (RepoInput.repoInfo st); [|done]. by rewrite size_empty.
  - intros info Hinfo Hfiles.
    unfold RepoInput.handleSubmit, RepoInput.handleSelectAll. cbn. rewrite Hinfo.
    set (paths := list_to_set (map file_path (RepoInput.fetchedFiles st)) : gset string).
    destruct (Nat.eqb_spec (base.size paths) 0) as [Hsize|_].
    + exfalso. apply size_empty_iff in Hsize.
      destruct (RepoInput.fetchedFiles st) as [|f l]; [done|].
      assert (file_path f ∈ paths) by (subst paths; set_solver). set_solver.
    + f_equal. f_equal. apply filter_all, Forall_forall. intros f Hf.
      apply bool_decide_eq_true. subst paths. apply elem_of_list_to_set.
      apply list_elem_of_In, in_map, list_elem_of_In. done.
  - intros Hfiles.
    unfold RepoInput.handleSubmit, RepoInput.handleSelectAll. cbn. rewrite Hfiles.
    destruct (RepoInput.repoInfo st); [|done].
    change (map file_path []) with (@nil string).
    by rewrite list_to_set_nil, size_empty.
Qed.

(** ** The invariant of the panel *)

Lemma step_invariant st ev :
  panelInvariant st -> RepoInput.enabled st ev -> panelInvariant (RepoInput.step st ev).
Proof.
  intros (Hsel & Hinfo & Hwait & Herr) Hev.
  destruct ev as [v|v| |response|path| |]; cbn [RepoInput.step].
  - done.
  - done.
  - unfold RepoInput.handleFetch_start.
    destruct (negb _); cbn [fst]; [done|].
    unfold panelInvariant. cbn. split_and!; done.
  - cbn in Hev. destruct (Hwait Hev) as (He & Hf & Hi & Hs).
    destruct response as [[e|o r b files total fetched truncated tree]|m];
      unfold panelInvariant; cbn; rewrite ?He, ?Hf, ?Hi, ?Hs;
      split_and!; try done; try (intros _; eauto).
  - unfold panelInvariant. cbn. split_and!; [|done| |done].
    + destruct Hev as [Hev _].
      assert (path ∈ (list_to_set (map file_path (RepoInput.fetchedFiles st))
                        : gset string)) by set_solver.
      case_bool_decide; set_solver.
    + intros Hw. destruct (Hwait Hw) as (_ & Hf & _).
      destruct Hev as [Hev _]. rewrite Hf in Hev. by apply elem_of_nil in Hev.
  - unfold panelInvariant. cbn. split_and!; [done|done| |done].
    intros Hw. destruct (Hwait Hw) as (_ & Hf & _). by destruct Hev as [Hev _].
  - unfold panelInvariant. cbn. split_and!; [set_solver|done| |done].
    intros Hw. destruct (Hwait Hw) as (_ & Hf & _). by destruct Hev as [Hev _].
Qed.

(** X12: However the panel is used, and also while a fetch is under way,
    only fetched files are selected and fetched files come with their
    repository; while a fetch is under way there is no error, no file and
    no selection, so that nothing can be submitted; and an error is never
    shown together with files.  So when [handleSubmit] passes files on,
    there is at least one, and the page sends them to the agent. *)
Theorem panel_submits_files st :
  RepoInput.reachable st ->
  panelInvariant st
  /\ (RepoInput.fetching st = true -> RepoInput.handleSubmit st = None)
  /\ (forall sel info,
        RepoInput.handleSubmit st = Some (sel, info) ->
        sel <> [] /\ handleRepoSubmit sel info = Some (repoMessage sel info)).
Proof.
  intros Hreach.
  assert (panelInvariant st) as Hinv.
  { induction Hreach as [|st ev _ IH Hev]; [|by apply step_invariant].
    unfold panelInvariant. cbn. split_and!; done. }
  split; [done|]. split.
  { intros Hw. destruct Hinv as (_ & _ & Hwait & _).
    destruct (Hwait Hw) as (_ & _ & Hi & _).
    unfold RepoInput.handleSubmit. by rewrite Hi. }
  intros sel info Hsubmit.
  assert (sel <> []) as Hne.
  { destruct Hinv as (Hsel & _).
    unfold RepoInput.handleSubmit in Hsubmit.
    destruct (RepoInput.repoInfo st); [|discriminate].
    destruct (Nat.eqb_spec (base.size (RepoInput.selectedPaths st)) 0) as [|Hsize];
      [discriminate|].
    injection Hsubmit as <- <-.
    assert (RepoInput.selectedPaths st ≠ ∅) as Hnonempty.
    { intros E. apply Hsize. rewrite E. apply size_empty. }
    apply set_choose_L in Hnonempty as [p Hp].
    assert (p ∈ (list_to_set (map file_path (RepoInput.fetchedFiles st)) : gset string))
      as Hpath by set_solver.
    apply elem_of_list_to_set, list_elem_of_In, in_map_iff in Hpath as (f & <- & Hf).
    apply (filter_not_nil _ _ f); [by apply list_elem_of_In|].
    by apply bool_decide_eq_true. }
  split; [done|]. unfold handleRepoSubmit. destruct sel; done.
Qed.

Lemma panel_submits_files_witness :
  let waiting :=
    RepoInput.step
      (RepoInput.step RepoInput.initial (RepoInput.TypeUrl "octocat/Hello-World"))
      RepoInput.Fetch in
  let st :=
    RepoInput.step waiting
      (RepoInput.Settle
         (Returns (responseBody
                     (successResponse "octocat" "Hello-World" "main"
                        [x_py; y_py; z_py]
                        [recordOf x_py "print(1)"; recordOf z_py "print(1)"])))) in
  RepoInput.fetching waiting = true
  /\ RepoInput.handleSubmit waiting = None
  /\ RepoInput.handleSubmit st
     = Some ([recordOf x_py "print(1)"; recordOf z_py "print(1)"],
             {| info_owner := "octocat"; info_repo := "Hello-World";
                info_branch := "main" |})
  /\ panelInvariant st.
Proof.
  intros waiting st.
  assert (RepoInput.reachable waiting) as Hwaiting.
  { subst waiting. apply RepoInput.reachable_step; [|reflexivity].
    apply RepoInput.reachable_step; [|exact I]. apply RepoInput.reachable_initial. }
  split; [reflexivity|]. split.
  { apply (panel_submits_files waiting Hwaiting). reflexivity. }
  split; [vm_compute; reflexivity|].
  apply (panel_submits_files st).
  subst st. apply RepoInput.reachable_step; [exact Hwaiting | reflexivity].
Defined.

(** ** The panel and the route together *)

(** X13: When the panel fetches a locator that is not blank and the route
    answers, the panel ends with no fetch under way and shows an error
    exactly when the status is not 200: then it holds a message that is not
    empty, no files, no repository and no selection, and there is nothing
    to submit; with status 200 it holds the records of the response, at
    most 50, all of them selected, for the repository of the response, and
    a total count that is not below their number. *)
Theorem panel_after_route
    (URL_new : string -> option URL) (decodeBase64 : string -> string)
    (Response_error : Z -> string) (github : HostingService)
    (completion : nat -> list nat) request log res log' st :
  JS.truthy (JS.trim (RepoInput.repoUrl st)) = true ->
  POST URL_new decodeBase64 Response_error github completion
      request log = (Done res, log') ->
  let st' := fst (RepoInput.handleFetch (answered res) st) in
  RepoInput.fetching st' = false
  /\ (responseStatus res <> 200 ->
        (exists e, RepoInput.fetchError st' = Some e /\ e <> "")
        /\ RepoInput.fetchedFiles st' = []
        /\ RepoInput.repoInfo st' = None
        /\ RepoInput.selectedPaths st' = ∅
        /\ RepoInput.handleSubmit st' = None)
  /\ (responseStatus res = 200 ->
        RepoInput.fetchError st' = None
        /\ RepoInput.fetchedFiles st' = filesOf res
        /\ (length (RepoInput.fetchedFiles st') <= 50)%nat
        /\ RepoInput.selectedPaths st'
           = list_to_set (map file_path (RepoInput.fetchedFiles st'))
        /\ is_Some (RepoInput.repoInfo st')
        /\ Z.of_nat (length (RepoInput.fetchedFiles st')) <= RepoInput.totalInRepo st').
Proof.
  intros Hurl Hrun st'. subst st'.
  unfold RepoInput.handleFetch, RepoInput.handleFetch_start. rewrite Hurl.
  cbn [negb fst]. unfold answered, RepoInput.handleFetch_settle.
  destruct res as [body status0]. cbn [responseBody responseStatus].
  destruct body as [e|o r b files total fetched truncated listing].
  - cbn. split; [done|]. split; [|intros ->].
    + intros _. split; [|done]. eexists. split; [reflexivity|].
      unfold JS.strOrElse. destruct (JS.truthy e) eqn:He; [|done].
      by apply truthy_true.
    + apply POST_done in Hrun as [(e' & s & [= <- <-] & Hs) | (? & ? & ? & ? & [=])].
      done.
  - destruct (success_response_invariants_aux URL_new decodeBase64
      Response_error github completion
                request log _ log' o r b files total fetched truncated listing
                Hrun eq_refl) as (Hstatus & Hfetched & H50 & Htotal).
    cbn. split; [done|]. split; [intros H; destruct (H Hstatus)|].
    intros _. split_and!; try done; try lia.
    destruct (Z.eqb_spec total 0); lia.
Qed.

Lemma panel_after_route_witness :
  let st := RepoInput.setRepoUrl " octocat/Hello-World " RepoInput.initial in
  let res :=
    {| responseBody :=
         Success "octocat" "Hello-World" "main"
           [recordOf x_py "print(1)"; recordOf z_py "print(1)"]
           3 2 1 [("x.py", Some 10); ("y.py", Some 20); ("z.py", Some 30)];
       responseStatus := 200 |} in
  RepoInput.fetchedFiles (fst (RepoInput.handleFetch (answered res) st))
  = [recordOf x_py "print(1)"; recordOf z_py "print(1)"].
Proof.
  intros st res.
  destruct (panel_after_route URL_plain base64_plain Response_error_plain threeFiles
              (lastFirst [x_py; y_py; z_py]) (Returns helloWorld) [] res _ st
              ltac:(vm_compute; reflexivity) threeFiles_run) as (_ & _ & H).
  destruct (H eq_refl) as (_ & -> & _). reflexivity.
Defined.

Lemma sum_sizes_acc (l : list FileRecord) acc :
  fold_left (fun sum f => sum + file_size f) l acc
  = acc + fold_left (fun sum f => sum + file_size f) l 0.
Proof.
  revert acc. induction l as [|f l IH]; intros acc; simpl; [lia|].
  rewrite (IH (acc + file_size f)), (IH (0 + file_size f)). lia.
Qed.

(** X14: The size shown for the selection is 0 when nothing is selected, the
    sum of all sizes when everything is, and, sizes not being negative,
    always between the two. *)
Theorem selected_size_bounds st :
  RepoInput.totalSelectedSize (RepoInput.handleDeselectAll st) = 0
  /\ RepoInput.totalSelectedSize (RepoInput.handleSelectAll st)
     = fold_left (fun sum f => sum + file_size f) (RepoInput.fetchedFiles st) 0
  /\ (Forall (fun f => 0 <= file_size f) (RepoInput.fetchedFiles st) ->
      0 <= RepoInput.totalSelectedSize st
        <= fold_left (fun sum f => sum + file_size f) (RepoInput.fetchedFiles st) 0).
Proof.
  unfold RepoInput.totalSelectedSize. split; [|split].
  - cbn. induction (RepoInput.fetchedFiles st) as [|f l IH]; [done|].
    cbn [List.filter]. rewrite bool_decide_eq_false_2 by set_solver. exact IH.
  - cbn. f_equal. apply filter_all, Forall_forall. intros f Hf.
    apply bool_decide_eq_true, elem_of_list_to_set.
    by apply list_elem_of_In, in_map, list_elem_of_In.
  - generalize (RepoInput.selectedPaths st) (RepoInput.fetchedFiles st).
    intros sel files Hall.
    induction Hall as [|f l Hf _ IH]; [simpl; lia|].
    cbn [List.filter fold_left].
    rewrite (sum_sizes_acc l (0 + file_size f)).
    destruct (bool_decide _); cbn [fold_left];
      rewrite ?(sum_sizes_acc (List.filter _ l) (0 + file_size f)); lia.
Qed.

Lemma selected_size_bounds_witness :
  let st := fst (RepoInput.handleFetch
                   (answered (successResponse "octocat" "Hello-World" "main"
                                [x_py; y_py; z_py]
                                [recordOf x_py "print(1)"; recordOf z_py "print(1)"]))
                   (RepoInput.setRepoUrl "octocat/Hello-World" RepoInput.initial)) in
  0 <= RepoInput.totalSelectedSize (RepoInput.handleToggleFile "x.py" st) <= 40.
Proof.
  intros st.
  apply (proj2 (proj2 (selected_size_bounds (RepoInput.handleToggleFile "x.py" st)))).
  repeat constructor; vm_compute; discriminate.
Defined.

(** ** The message for the analysis agent *)

Lemma length_split c s : length (JS.split c s) = S (countUnit c s).
Proof.
  induction s as [|d s IH]; [done|].
  cbn [countUnit]. destruct (Ascii.eqb_spec d c) as [->|Hd].
  - rewrite split_cons_eq. simpl. by rewrite IH.
  - destruct (split_cons_ne c d s Hd) as (w & ws & E & ->).
    rewrite E in IH. simpl in *. lia.
Qed.

Lemma totalLines_acc files acc :
  fold_left (fun sum f => sum + linesOf f) files acc
  = acc + Z.of_nat (length files
                    + sum_list (map (fun f => countUnit "010" (file_content f)) files)).
Proof.
  revert acc. induction files as [|f l IH]; intros acc; [simpl; lia|].
  cbn [fold_left]. rewrite IH. unfold linesOf. rewrite length_split.
  change (sum_list (map (fun f0 => countUnit "010" (file_content f0)) (f :: l)))
    with (countUnit "010" (file_content f)
          + sum_list (map (fun f0 => countUnit "010" (file_content f0)) l))%nat.
  cbn [length]. lia.
Qed.

(** X15: The page calls the agent exactly when it is given files, and the line
    count of its message is the number of files plus the number of line
    feeds in their contents: an empty file counts as one line, and so does
    the empty text after a final line feed. *)
Theorem agent_message_counts files info :
  (handleRepoSubmit files info = None <-> files = [])
  /\ (files <> [] -> handleRepoSubmit files info = Some (repoMessage files info))
  /\ totalLines files
     = Z.of_nat (length files
                 + sum_list (map (fun f => countUnit "010" (file_content f)) files))
  /\ Z.of_nat (length files) <= totalLines files.
Proof.
  split; [|split; [|split]].
  - unfold handleRepoSubmit. destruct files; simpl; split; done.
  - unfold handleRepoSubmit. destruct files; done.
  - unfold totalLines. rewrite totalLines_acc. lia.
  - unfold totalLines. rewrite totalLines_acc. lia.
Qed.

Lemma Set_add_spec l : forall seen,
  NoDup seen ->
  NoDup (fold_left Set_add l seen)
  /\ (forall x, x ∈ fold_left Set_add l seen <-> x ∈ seen \/ x ∈ l)
  /\ (length (fold_left Set_add l seen) <= length seen + length l)%nat.
Proof.
  induction l as [|y l IH]; intros seen Hseen.
  { simpl. split; [done|]. split; [|lia]. intros x. rewrite elem_of_nil. tauto. }
  cbn [fold_left]. unfold Set_add at 2 4 6. case_bool_decide as Hy.
  - destruct (IH seen Hseen) as (Hnd & Hin & Hlen).
    split; [done|]. split; [|simpl; lia].
    intros x. rewrite Hin, elem_of_cons. split; [tauto|].
    intros [?|[->|?]]; tauto.
  - assert (NoDup (seen ++ [y])) as Hseen'.
    { apply NoDup_app. split; [done|]. split; [|apply NoDup_singleton].
      intros x Hx ->%list_elem_of_singleton. done. }
    destruct (IH _ Hseen') as (Hnd & Hin & Hlen).
    split; [done|]. split; [|rewrite length_app in Hlen; simpl in *; lia].
    intros x. rewrite Hin, elem_of_app, list_elem_of_singleton, elem_of_cons. tauto.
Qed.

(** X16: The languages named in the message: each label of a file that is
    neither empty nor [Unknown], once. *)
Theorem languages_listed files :
  NoDup (languagesOf files)
  /\ (forall l, l ∈ languagesOf files <->
        l <> "" /\ l <> "Unknown"
        /\ exists f, f ∈ files /\ file_language f = l)
  /\ (length (languagesOf files) <= length files)%nat.
Proof.
  unfold languagesOf, Set_of.
  destruct (Set_add_spec
              (List.filter (fun l => JS.truthy l && negb (String.eqb l "Unknown"))
                 (map file_language files)) [] NoDup_nil_2)
    as (Hnd & Hin & Hlen).
  split; [done|]. split.
  - intros l. rewrite Hin, elem_of_nil, list_elem_of_In, filter_In, in_map_iff.
    rewrite andb_true_iff, negb_true_iff, String.eqb_neq, truthy_true.
    setoid_rewrite list_elem_of_In. split.
    + intros [[]|[(f & <- & Hf) [H1 H2]]]. eauto.
    + intros (H1 & H2 & f & Hf & <-). right. eauto.
  - etrans; [exact Hlen|]. simpl.
    etrans; [apply sublist_length, sublist_List_filter|]. by rewrite length_map.
Qed.

(** * Entries without a size *)

Lemma filter_none {A} (f : A -> bool) l :
  Forall (fun x => f x = false) l -> List.filter f l = [].
Proof. induction 1 as [|x l Hx _ IH]; simpl; [done|]. by rewrite Hx, IH. Qed.

(** Among entries of non-negative size, the sorted listing starts with the
    entries that count as size 0. *)
Lemma sorted_zeros_first (l : list TreeItem) :
  StronglySorted (fun a b => sizeOf a <= sizeOf b) l ->
  Forall (fun f => 0 <= sizeOf f) l ->
  l = List.filter zeroSized l ++ List.filter (fun f => negb (zeroSized f)) l.
Proof.
  induction 1 as [|x l Hs IH Hx]; intros Hpos; [done|].
  apply Forall_cons in Hpos as [Hx0 Hpos]. cbn [List.filter].
  destruct (zeroSized x) eqn:E; cbn [negb].
  - simpl. f_equal. by apply IH.
  - apply Z.eqb_neq in E. rewrite filter_none, filter_all; [done|..].
    + eapply Forall_impl; [exact Hx|]. intros y Hy. unfold zeroSized.
      apply negb_true_iff, Z.eqb_neq. simpl in Hy. lia.
    + eapply Forall_impl; [exact Hx|]. intros y Hy. unfold zeroSized.
      apply Z.eqb_neq. simpl in Hy. lia.
Qed.

Lemma Array_sort_zeros_first allFiles :
  Forall (fun f => 0 <= sizeOf f) allFiles ->
  Array_sort bySize allFiles
  = List.filter zeroSized allFiles
    ++ List.filter (fun f => negb (zeroSized f)) (Array_sort bySize allFiles).
Proof.
  intros Hpos.
  pose proof (Array_sort_sorted sizeOf allFiles) as Hs.
  pose proof (Array_sort_perm sizeOf allFiles) as Hp.
  pose proof (Array_sort_stable sizeOf 0 allFiles) as Hst.
  change (Array_sort _ allFiles) with (Array_sort bySize allFiles) in Hs, Hp, Hst.
  rewrite <- Hp in Hpos.
  rewrite (sorted_zeros_first _ Hs Hpos) at 1.
  unfold zeroSized at 1 3. by rewrite Hst.
Qed.

(** The walk admits entries that count as size 0 while the count has
    room, and they leave the running total as it is. *)
Lemma collect_zeros zs : forall rest acc t,
  Forall (fun f => zeroSized f = true) zs ->
  (length acc + length zs <= 50)%nat ->
  t <= MAX_TOTAL_SIZE ->
  collect routeBudget (zs ++ rest) acc t = collect routeBudget rest (acc ++ zs) t.
Proof.
  induction zs as [|z zs IH]; intros rest acc t Hz Hn Ht.
  { by rewrite app_nil_r. }
  apply Forall_cons in Hz as [Hz0 Hz]. apply Z.eqb_eq in Hz0.
  cbn [app length] in *.
  rewrite collect_admit; cbn [maxFiles maxFilePairSize maxTotalSize routeBudget];
    rewrite ?Hz0, ?Z.add_0_r;
    [|unfold MAX_FILES; lia | unfold MAX_FILE_SIZE; lia | done].
  rewrite IH by (rewrite ?length_app; cbn [length]; done || lia).
  by rewrite <- app_assoc.
Qed.

Lemma selectFiles_zeros_prefix allFiles :
  Forall (fun f => 0 <= sizeOf f) allFiles ->
  take 50 (List.filter zeroSized allFiles) `prefix_of` selectFiles routeBudget allFiles.
Proof.
  intros Hpos. unfold selectFiles.
  rewrite (Array_sort_zeros_first _ Hpos).
  set (zeros := List.filter zeroSized allFiles).
  set (others := List.filter _ (Array_sort bySize allFiles)).
  rewrite <- (take_drop 50 zeros) at 2. rewrite <- app_assoc.
  rewrite collect_zeros.
  - destruct (collect_prefix routeBudget (drop 50 zeros ++ others) ([] ++ take 50 zeros) 0)
      as (sel & rest & -> & _).
    exists sel. done.
  - apply Forall_take, Forall_forall. intros f Hf.
    apply list_elem_of_In, filter_In in Hf. apply Hf.
  - rewrite length_take. cbn [length]. lia.
  - unfold MAX_TOTAL_SIZE. lia.
Qed.

Lemma selectFiles_zero_admitted allFiles file :
  Forall (fun f => 0 <= sizeOf f) allFiles ->
  (length (List.filter zeroSized allFiles) <= 50)%nat ->
  file ∈ allFiles -> zeroSized file = true ->
  file ∈ selectFiles routeBudget allFiles.
Proof.
  intros Hpos Hlen Hin Hz.
  destruct (selectFiles_zeros_prefix allFiles Hpos) as [rest ->].
  rewrite take_ge by done. apply elem_of_app. left.
  apply list_elem_of_In, filter_In. split; [by apply list_elem_of_In | done].
Qed.

Lemma normalize_record decodeBase64 file c :
  c <> "" -> JS.includes "000" (decodeBase64 c) = false ->
  normalize decodeBase64 file {| encoding := Some "base64"; content := Some c |}
  = Some (recordOf file (decodeBase64 c)).
Proof.
  intros Hne Hnull. unfold normalize. cbn [encoding content].
  apply truthy_true in Hne. rewrite Hne.
  change (String.eqb "base64" "base64") with true. cbn [andb].
  rewrite Hnull. done.
Qed.

Lemma zeroSized_absent file :
  size file = None \/ size file = Some 0 -> zeroSized file = true.
Proof. intros H. unfold zeroSized. by rewrite (sizeOf_absent file H). Qed.

(** C10: an entry whose size is absent or zero counts as size 0.  Among
    entries of non-negative size the sorted listing starts with these
    entries, in the order of the tree; the selection starts with the first
    50 of them, so that such an entry is selected when there are at most
    50 of them; at the route's limits its admission leaves the running
    total as it is.  The record of a file whose document decodes to text
    without a null character has the size of the entry, or the length of
    the decoded text when that size is absent or zero; and the handler
    answers with this record for a selected entry without a size whose
    fetch succeeds.  In the tree of [x.py] (10) and [n.py] (no size),
    [n.py] is listed and fetched first and its record has the size 8 of
    its text. *)
Theorem absent_size_is_zero :
  (forall file, size file = None \/ size file = Some 0 -> sizeOf file = 0)
  /\ (forall allFiles,
        Forall (fun f => 0 <= sizeOf f) allFiles ->
        Array_sort bySize allFiles
        = List.filter zeroSized allFiles
          ++ List.filter (fun f => negb (zeroSized f)) (Array_sort bySize allFiles))
  /\ (forall allFiles,
        Forall (fun f => 0 <= sizeOf f) allFiles ->
        take 50 (List.filter zeroSized allFiles)
          `prefix_of` selectFiles routeBudget allFiles)
  /\ (forall allFiles file,
        Forall (fun f => 0 <= sizeOf f) allFiles ->
        (length (List.filter zeroSized allFiles) <= 50)%nat ->
        file ∈ allFiles ->
        size file = None \/ size file = Some 0 ->
        file ∈ selectFiles routeBudget allFiles)
  /\ (forall file rest acc t,
        size file = None \/ size file = Some 0 ->
        Z.of_nat (length acc) < MAX_FILES ->
        t <= MAX_TOTAL_SIZE ->
        collect routeBudget (file :: rest) acc t
        = collect routeBudget rest (acc ++ [file]) t)
  /\ (forall decodeBase64 file c,
        c <> "" -> JS.includes "000" (decodeBase64 c) = false ->
        normalize decodeBase64 file {| encoding := Some "base64"; content := Some c |}
        = Some {| file_path := path file;
                  file_content := decodeBase64 c;
                  file_size :=
                    match size file with
                    | Some n =>
                        if n =? 0 then Z.of_nat (String.length (decodeBase64 c)) else n
                    | None => Z.of_nat (String.length (decodeBase64 c))
                    end;
                  file_language := getLanguageFromPath (path file) |})
  /\ (forall URL_new decodeBase64 Response_error github completion
             body ref tb requested treeRes treeData log file contentRes c,
        located URL_new body ref -> resolves github body ref tb requested ->
        fetchTree github (treeAddress (owner ref) (repo ref) tb) = Returns treeRes ->
        ok treeRes = true -> json treeRes = Returns treeData ->
        let allFiles := eligible (default [] (tree treeData)) in
        fair completion (selectFiles routeBudget allFiles) ->
        Forall (fun f => 0 <= sizeOf f) allFiles ->
        (length (List.filter zeroSized allFiles) <= 50)%nat ->
        file ∈ allFiles ->
        size file = None \/ size file = Some 0 ->
        fetchContent github (contentAddress (owner ref) (repo ref) tb file)
          = Returns contentRes ->
        ok contentRes = true ->
        json contentRes = Returns {| encoding := Some "base64"; content := Some c |} ->
        c <> "" -> JS.includes "000" (decodeBase64 c) = false ->
        exists res log',
          POST URL_new decodeBase64 Response_error github completion (Returns body) log
          = (Done res, log')
          /\ {| file_path := path file;
                file_content := decodeBase64 c;
                file_size := Z.of_nat (String.length (decodeBase64 c));
                file_language := getLanguageFromPath (path file) |} ∈ filesOf res)
  /\ POST URL_plain base64_plain Response_error_plain sizeless (inOrder [n_py; x_py])
       (Returns helloWorld) []
     = (Done {| responseBody :=
                  Success "octocat" "Hello-World" "main"
                    [ {| file_path := "n.py"; file_content := "print(1)";
                         file_size := 8; file_language := "Python" |};
                      {| file_path := "x.py"; file_content := "print(1)";
                         file_size := 10; file_language := "Python" |} ]
                    2 2 0 [("n.py", None); ("x.py", Some 10)];
                responseStatus := 200 |},
        [ "https://api.github.com/repos/octocat/Hello-World/git/trees/main?recursive=1";
          "https://api.github.com/repos/octocat/Hello-World/contents/n.py?ref=main";
          "https://api.github.com/repos/octocat/Hello-World/contents/x.py?ref=main" ]).
Proof.
  split; [exact sizeOf_absent|].
  split; [exact Array_sort_zeros_first|].
  split; [exact selectFiles_zeros_prefix|].
  split.
  { intros allFiles file Hpos Hlen Hin Hsize.
    apply selectFiles_zero_admitted; auto using zeroSized_absent. }
  split.
  { intros file rest acc t Hsize Hn Ht.
    rewrite collect_admit; cbn [maxFiles maxFilePairSize maxTotalSize routeBudget];
      rewrite ?(sizeOf_absent file Hsize), ?Z.add_0_r;
      [done | done | unfold MAX_FILE_SIZE; lia | done]. }
  split.
  { intros decodeBase64 file c Hne Hnull.
    rewrite normalize_record by done. unfold recordOf, JS.numOr.
    destruct (size file) as [n|]; done. }
  split; [|vm_compute; reflexivity].
  intros URL_new decodeBase64 Response_error github completion
    body ref tb requested treeRes treeData log file contentRes c
    Hl Hr Htree Hok Hjson allFiles Hfair Hpos Hlen Hin Hsize Hcontent Hcok Hcjson
    Hne Hnull.
  do 2 eexists. split.
  { apply (POST_success URL_new decodeBase64 Response_error github completion
             body ref tb requested treeRes treeData log Hl Hr Htree Hok Hjson Hfair). }
  unfold filesOf. cbn [responseBody].
  apply list_elem_of_omap. exists file. split.
  { apply selectFiles_zero_admitted; auto using zeroSized_absent. }
  unfold fetchFile. rewrite Hcontent, Hcok. cbn [negb]. rewrite Hcjson.
  rewrite normalize_record by done. unfold recordOf, JS.numOr.
  by destruct Hsize as [-> | ->].
Qed.

Lemma absent_size_is_zero_witness :
  exists res log',
    POST URL_plain base64_plain Response_error_plain sizeless (inOrder [n_py; x_py])
      (Returns helloWorld) [] = (Done res, log')
    /\ {| file_path := "n.py"; file_content := "print(1)"; file_size := 8;
          file_language := "Python" |} ∈ filesOf res.
Proof.
  destruct absent_size_is_zero as (_ & _ & _ & _ & _ & _ & H & _).
  apply (H URL_plain base64_plain Response_error_plain sizeless (inOrder [n_py; x_py])
           helloWorld
           {| owner := "octocat"; repo := "Hello-World"; branch := None |}
           "main" []
           {| status := 200; statusText := "OK";
              json := Returns {| tree := Some [x_py; n_py] |} |}
           {| tree := Some [x_py; n_py] |} [] n_py
           {| status := 200; statusText := "OK";
              json := Returns {| encoding := Some "base64";
                                 content := Some "cHJpbnQoMSk=" |} |}
           "cHJpbnQoMSk=").
  - exists "octocat/Hello-World". repeat split; vm_compute; reflexivity.
  - left. split; vm_compute; reflexivity.
  - reflexivity.
  - reflexivity.
  - reflexivity.
  - change (selectFiles _ _) with [n_py; x_py]. apply inOrder_fair.
  - repeat constructor; vm_compute; discriminate.
  - vm_compute. lia.
  - change (eligible _) with [x_py; n_py]. set_solver.
  - by left.
  - reflexivity.
  - reflexivity.
  - reflexivity.
  - discriminate.
  - vm_compute. reflexivity.
Defined.
